(** * A shallow embedding of the debugger server ([src/server.py])

    The server keeps a catalog of programs, a breakpoint store, an
    attachment registry and, per program, a cursor and a variable
    context.  [DebuggerServer.process_command] is embedded as a pure
    function from a command line, a client address and a server state to
    a response and a new server state.

    Python's builtins are treated as follows.
    - Strings are Rocq strings; only the ASCII white space and line
      boundaries are recognised (code points above 127 are ordinary
      characters here).
    - [exec], [eval], [repr] and [int] are parameters of the development:
      every theorem holds for any statement interpreter and any integer
      parser.
    - Python dictionaries whose iteration order is observable
      ([programs], [debugging], the variable contexts) are association
      lists in insertion order; the others are [gmap]s.
    - Variable contexts are mutable objects shared between
      [self.contexts] and [self.states]; they live in an explicit heap.

    The sockets, the threads and the fields [host], [port] and [clients]
    are not part of the embedding: a command is one atomic step, and a
    connection that ends is the step [cleanup]. *)

From Stdlib Require Import ZArith List String Ascii Lia DecimalString.
From stdpp Require Import base option gmap sets list strings sorting.
Import ListNotations.

Local Open Scope string_scope.
Local Open Scope Z_scope.
Local Open Scope nat_scope.

(** ** Python string operations *)

Module PyStr.

(** [str.isspace] on one ASCII character: TAB, LF, VT, FF, CR, the four
    separators FS, GS, RS, US, and the space. *)
Definition is_space (c : ascii) : bool :=
  let n := nat_of_ascii c in
  ((9 <=? n) && (n <=? 13)) || ((28 <=? n) && (n <=? 32)).

(** [s.lstrip()] *)
Fixpoint lstrip (s : string) : string :=
  match s with
  | EmptyString => EmptyString
  | String c s' => if is_space c then lstrip s' else s
  end.

(** [s.rstrip()] *)
Fixpoint rstrip (s : string) : string :=
  match s with
  | EmptyString => EmptyString
  | String c s' =>
      match rstrip s' with
      | EmptyString => if is_space c then EmptyString else String c EmptyString
      | r => String c r
      end
  end.

(** [s.strip()] *)
Definition strip (s : string) : string := rstrip (lstrip s).

(** The longest prefix without white space, and what follows it. *)
Fixpoint word_break (s : string) : string * string :=
  match s with
  | EmptyString => (EmptyString, EmptyString)
  | String c s' =>
      if is_space c then (EmptyString, s)
      else let '(w, r) := word_break s' in (String c w, r)
  end.

(** [s.split(maxsplit=1)]: leading white space is dropped, the first
    word is cut off, and the remainder (without its leading white
    space, with its trailing white space) is the second part when it is
    not empty. *)
Definition split_maxsplit1 (s : string) : list string :=
  match lstrip s with
  | EmptyString => []
  | s1 =>
      let '(w, r) := word_break s1 in
      match lstrip r with
      | EmptyString => [w]
      | r' => [w; r']
      end
  end.

Definition flush (tok : string) : list string :=
  match tok with EmptyString => [] | _ => [tok] end.

Fixpoint split_acc (tok : string) (s : string) : list string :=
  match s with
  | EmptyString => flush tok
  | String c s' =>
      if is_space c then flush tok ++ split_acc EmptyString s'
      else split_acc (tok ++ String c EmptyString) s'
  end.

(** [s.split()] *)
Definition split (s : string) : list string := split_acc EmptyString s.

Definition lower_char (c : ascii) : ascii :=
  let n := nat_of_ascii c in
  if (65 <=? n) && (n <=? 90) then ascii_of_nat (n + 32) else c.

(** [s.lower()] *)
Fixpoint lower (s : string) : string :=
  match s with
  | EmptyString => EmptyString
  | String c s' => String (lower_char c) (lower s')
  end.

(** [s.startswith(p)] *)
Definition startswith (p s : string) : bool := String.prefix p s.

(** Line boundaries of [str.splitlines]: LF, VT, FF, CR, FS, GS, RS. *)
Definition is_linebreak (c : ascii) : bool :=
  let n := nat_of_ascii c in
  ((10 <=? n) && (n <=? 13)) || ((28 <=? n) && (n <=? 30)).

Fixpoint splitlines_acc (cur : string) (s : string) : list string :=
  match s with
  | EmptyString => flush cur
  | String c s' =>
      if is_linebreak c then
        match s' with
        | String c2 s'' =>
            if (nat_of_ascii c =? 13) && (nat_of_ascii c2 =? 10)
            then cur :: splitlines_acc EmptyString s''
            else cur :: splitlines_acc EmptyString s'
        | EmptyString => [cur]
        end
      else splitlines_acc (cur ++ String c EmptyString) s'
  end.

(** [s.splitlines()] *)
Definition splitlines (s : string) : list string :=
  splitlines_acc EmptyString s.

(** [not line or line.startswith('#')] *)
Definition blank_or_comment (line : string) : bool :=
  match line with
  | EmptyString => true
  | _ => startswith "#" line
  end.

End PyStr.

(** ** Insertion-ordered dictionaries *)

Module Dict.

(** A dictionary with string keys, as the list of its items. *)
Abbreviation t V := (list (string * V)) (only parsing).

Section Dict.
Context {V : Type}.

(** [d.get(k)] *)
Fixpoint get (k : string) (d : t V) : option V :=
  match d with
  | [] => None
  | (k', v) :: d' => if decide (k' = k) then Some v else get k d'
  end.

(** [k in d] *)
Definition mem (k : string) (d : t V) : bool :=
  match get k d with Some _ => true | None => false end.

(** [d[k] = v]: an existing key keeps its position, a new key goes
    last. *)
Fixpoint set (k : string) (v : V) (d : t V) : t V :=
  match d with
  | [] => [(k, v)]
  | (k', v') :: d' =>
      if decide (k' = k) then (k, v) :: d' else (k', v') :: set k v d'
  end.

(** [del d[k]] *)
Definition del (k : string) (d : t V) : t V :=
  filter (fun kv => kv.1 ≠ k) d.

(** [list(d.keys())] *)
Definition keys (d : t V) : list string := d.*1.

End Dict.
End Dict.


(** ** The Python runtime the server relies on *)

(** The outcome of [exec(line, globals(), ctx)]: the context object is
    mutated in place, also when the statement raises half-way. *)
Inductive exec_result (V : Type) :=
| ExecOk (ctx : Dict.t V)
| ExecErr (msg : string) (ctx : Dict.t V).
Arguments ExecOk {V} ctx.
Arguments ExecErr {V} msg ctx.

(** The statement interpreter and the other builtins whose meaning the
    server does not fix: [exec] and [eval] on a variable context, [repr]
    on a value, and [int] on a token ([None] when it raises). *)
Class PyRuntime := {
  value : Type;
  exec_stmt : string -> Dict.t value -> exec_result value;
  eval_expr : string -> Dict.t value -> value + string;
  repr : value -> string;
  py_int : string -> option Z
}.

(** A client address [(host, port)]. *)
Definition addr : Type := string * N.

(** A heap location holding a variable context. *)
Definition loc : Type := nat.

(** ** Responses

    One constructor per [return] of [process_command], [run] and [cont];
    the comment gives the text the server sends. *)
Inductive response :=
| RInvalidCommand                       (* Error: Invalid command. *)
| RHelp                                 (* the help text *)
| RPrograms (names : list string)       (* Programs: [...] *)
| RNotFound (program : string)          (* Error: Program '..' not found. *)
| RBreakpoints (program : string) (lines : list Z)
                                        (* Breakpoints in '..': [...] *)
| RFormat (usage : string)              (* Error: Format .. *)
| RBusy (program : string)              (* Error: '..' is currently executing. *)
| RBreakpointSet (line program : string)
                                        (* Breakpoint set at line .. in '..'. *)
| RBreakpointRemoved (line program : string)
                                        (* Breakpoint removed from line .. in '..'. *)
| RInvalidLine                          (* Error: Line must be integer. *)
| RAlreadyDebugged (program : string)   (* Error: '..' is already debugged. *)
| RSessionBusy (program : string)       (* Error: You are already debugging '..'. *)
| RAttached (program : string)          (* Attached to '..' *)
| RDetached (program : string)          (* Detached from '..' *)
| RNotAttached                          (* Not attached. *)
| RNeedsAttachment (name : string)      (* Error: '..' needs attachment. *)
| RNotPaused (program : string)         (* Error: '..' is not paused at a breakpoint. Use 'start' first. *)
| RVar (var rep : string)               (* var = repr *)
| RVarNotFound (var : string)           (* var not found. *)
| RVarSet (var rep : string)            (* var set to repr *)
| RError (msg : string)                 (* Error: msg *)
| RUnknown (name : string)              (* Error: Unknown command '..' *)
| RStartFirst                           (* Error: Start first. *)
| RBreakpointAt (line : Z) (upcoming : string)
                                        (* Breakpoint at line ..: .. *)
| RFinished (program : string) (vars : list (string * string))
                                        (* Finished '..'. Vars: {...} *)
| RErrorOnLine (line : nat) (msg : string)
                                        (* Error on line ..: msg *)
| RRaised (exn : string).               (* an exception leaves process_command *)

(** ** The server *)

Section Server.
Context `{!PyRuntime}.

(** A variable context: the dictionary [exec] receives as its locals. *)
Abbreviation ctx := (Dict.t value) (only parsing).

(** The fields of [DebuggerServer] that [process_command] reads or
    writes.  [contexts] and [states] refer to context objects of
    [heap]. *)
Record Server := {
  programs : Dict.t string;
  breakpoints : gmap string (gset Z);
  contexts : gmap string loc;
  debugging : Dict.t addr;
  executing : gset string;
  paused : gset string;
  states : gmap string (nat * loc);
  heap : list ctx
}.

(** [DebuggerServer.__init__], with the catalog that [load_programs]
    found. *)
Definition init (catalog : Dict.t string) : Server :=
  {| programs := catalog; breakpoints := ∅; contexts := ∅;
     debugging := []; executing := ∅; paused := ∅; states := ∅;
     heap := [] |}.

Definition with_breakpoints (b : gmap string (gset Z)) (st : Server) :=
  {| programs := programs st; breakpoints := b; contexts := contexts st;
     debugging := debugging st; executing := executing st;
     paused := paused st; states := states st; heap := heap st |}.

Definition with_contexts (c : gmap string loc) (st : Server) :=
  {| programs := programs st; breakpoints := breakpoints st; contexts := c;
     debugging := debugging st; executing := executing st;
     paused := paused st; states := states st; heap := heap st |}.

Definition with_debugging (d : Dict.t addr) (st : Server) :=
  {| programs := programs st; breakpoints := breakpoints st;
     contexts := contexts st; debugging := d; executing := executing st;
     paused := paused st; states := states st; heap := heap st |}.

Definition with_executing (e : gset string) (st : Server) :=
  {| programs := programs st; breakpoints := breakpoints st;
     contexts := contexts st; debugging := debugging st; executing := e;
     paused := paused st; states := states st; heap := heap st |}.

Definition with_paused (p : gset string) (st : Server) :=
  {| programs := programs st; breakpoints := breakpoints st;
     contexts := contexts st; debugging := debugging st;
     executing := executing st; paused := p; states := states st;
     heap := heap st |}.

Definition with_states (s : gmap string (nat * loc)) (st : Server) :=
  {| programs := programs st; breakpoints := breakpoints st;
     contexts := contexts st; debugging := debugging st;
     executing := executing st; paused := paused st; states := s;
     heap := heap st |}.

Definition with_heap (h : list ctx) (st : Server) :=
  {| programs := programs st; breakpoints := breakpoints st;
     contexts := contexts st; debugging := debugging st;
     executing := executing st; paused := paused st; states := states st;
     heap := h |}.

(** The context object at [l]. *)
Definition heap_get (l : loc) (st : Server) : ctx :=
  default [] (heap st !! l).

(** In-place mutation of the context object at [l]. *)
Definition heap_set (l : loc) (c : ctx) (st : Server) : Server :=
  with_heap (<[l := c]> (heap st)) st.

(** [self.contexts[program] = {}; self.states[program] = (0,
    self.contexts[program])]: one new empty object, referred to from
    both maps. *)
Definition fresh_context (program : string) (st : Server) : Server :=
  let l := length (heap st) in
  with_states (<[program := (0, l)]> (states st))
    (with_contexts (<[program := l]> (contexts st))
       (with_heap (heap st ++ [[]]) st)).

(** [self.executing.add(program); self.paused.discard(program)] *)
Definition mark_running (program : string) (st : Server) : Server :=
  with_paused (paused st ∖ {[program]})
    (with_executing ({[program]} ∪ executing st) st).

(** [self.executing.discard(program); self.paused.add(program)] *)
Definition mark_paused (program : string) (st : Server) : Server :=
  with_paused ({[program]} ∪ paused st)
    (with_executing (executing st ∖ {[program]}) st).

(** [self.executing.discard(program); self.paused.discard(program)] *)
Definition clear_markers (program : string) (st : Server) : Server :=
  with_paused (paused st ∖ {[program]})
    (with_executing (executing st ∖ {[program]}) st).

(** The first program of [self.debugging.items()] whose client is
    [a]. *)
Definition lookup_session (a : addr) (d : Dict.t addr) : option string :=
  fst <$> List.find (fun pa => bool_decide (pa.2 = a)) d.

(** [sorted(s)] for a set of integers. *)
Definition sorted (s : gset Z) : list Z := merge_sort Z.le (elements s).

(** *** The run loop of [cont] *)

Inductive loop_result :=
| LoopPaused (idx : nat) (c : ctx) (upcoming : string)
| LoopFinished (idx : nat) (c : ctx)
| LoopErrored (idx : nat) (msg : string) (c : ctx).

(** [program in self.breakpoints and (idx + 1) in
    self.breakpoints[program]] *)
Definition breakpoint_hit (bps : option (gset Z)) (idx : nat) : bool :=
  match bps with
  | Some s => bool_decide ((Z.of_nat idx + 1)%Z ∈ s)
  | None => false
  end.

(** [lines[idx].strip() if idx < len(lines) else 'end of program'],
    where [rest] is [lines[idx:]]. *)
Definition upcoming_text (rest : list string) : string :=
  match rest with
  | l :: _ => PyStr.strip l
  | [] => "end of program"
  end.

(** [while idx < len(lines): ...] with [rest = lines[idx:]]: the loop
    consumes one line per iteration, so it recurses on [rest]. *)
Fixpoint run_loop (bps : option (gset Z)) (rest : list string)
    (idx : nat) (c : ctx) : loop_result :=
  match rest with
  | [] => LoopFinished idx c
  | l :: rest' =>
      let line := PyStr.strip l in
      let idx := S idx in
      if PyStr.blank_or_comment line then run_loop bps rest' idx c
      else
        match exec_stmt line c with
        | ExecErr msg c' => LoopErrored idx msg c'
        | ExecOk c' =>
            if breakpoint_hit bps idx
            then LoopPaused idx c' (upcoming_text rest')
            else run_loop bps rest' idx c'
        end
  end.

(** [{k: repr(v) for k, v in ctx.items() if not k.startswith('__')}] *)
Definition visible_vars (c : ctx) : list (string * string) :=
  omap (fun kv => if PyStr.startswith "__" kv.1 then None
                  else Some (kv.1, repr kv.2)) c.

(** The text [cont] returns for each way the loop can end. *)
Definition loop_response (program : string) (res : loop_result)
    : response :=
  match res with
  | LoopPaused idx _ upcoming => RBreakpointAt (Z.of_nat idx + 1) upcoming
  | LoopFinished _ c => RFinished program (visible_vars c)
  | LoopErrored idx msg _ => RErrorOnLine idx msg
  end.

(** The context the loop leaves in the object it was given. *)
Definition loop_ctx (res : loop_result) : ctx :=
  match res with
  | LoopPaused _ c _ | LoopFinished _ c | LoopErrored _ _ c => c
  end.

(** The cursor [self.states[program]] holds after the loop, when it
    held [before] at its start: an exception leaves it alone. *)
Definition loop_cursor (before : nat) (res : loop_result) : nat :=
  match res with
  | LoopPaused idx _ _ | LoopFinished idx _ => idx
  | LoopErrored _ _ _ => before
  end.

(** What [cont] writes when the loop ends: a pause and a normal end
    store the cursor, an exception does not. *)
Definition store_result (program : string) (l : loc) (res : loop_result)
    (st : Server) : Server :=
  let st := heap_set l (loop_ctx res) st in
  match res with
  | LoopPaused idx _ _ =>
      mark_paused program
        (with_states (<[program := (idx, l)]> (states st)) st)
  | LoopFinished idx _ =>
      with_states (<[program := (idx, l)]> (states st))
        (clear_markers program st)
  | LoopErrored _ _ _ => clear_markers program st
  end.

(** [DebuggerServer.cont]; [self.programs[program]] raises [KeyError]
    for a program that is not in the catalog. *)
Definition cont (program : string) (st : Server) : response * Server :=
  match states st !! program with
  | None => (RStartFirst, st)
  | Some (idx, l) =>
      let st := mark_running program st in
      match Dict.get program (programs st) with
      | None => (RRaised "KeyError", st)
      | Some src =>
          let lines := PyStr.splitlines src in
          let res := run_loop (breakpoints st !! program) (drop idx lines)
                       idx (heap_get l st) in
          (loop_response program res, store_result program l res st)
      end
  end.

(** [DebuggerServer.run] *)
Definition run (program : string) (st : Server) : response * Server :=
  cont program (fresh_context program (mark_running program st)).

(** [self.breakpoints.setdefault(program, set())]: the entry is
    created before the argument of [add] or [discard] is evaluated. *)
Definition setdefault_breakpoints (program : string) (st : Server)
    : Server :=
  match breakpoints st !! program with
  | Some _ => st
  | None => with_breakpoints (<[program := ∅]> (breakpoints st)) st
  end.

(** [program in self.executing or program in self.paused] *)
Definition busy (program : string) (st : Server) : bool :=
  bool_decide (program ∈ executing st) || bool_decide (program ∈ paused st).

(** The [list_breakpoints] branch. *)
Definition list_breakpoints (args : string) (st : Server)
    : response * Server :=
  let program := args in
  match breakpoints st !! program with
  | None => (RNotFound program, st)
  | Some s => (RBreakpoints program (sorted s), st)
  end.

(** The [add_breakpoint] branch. *)
Definition add_breakpoint (args : string) (st : Server)
    : response * Server :=
  match PyStr.split args with
  | [program; line] =>
      if negb (Dict.mem program (programs st)) then (RNotFound program, st)
      else if busy program st then (RBusy program, st)
      else
        let st := setdefault_breakpoints program st in
        match py_int line with
        | Some n =>
            (RBreakpointSet line program,
             with_breakpoints
               (alter (fun s => {[n]} ∪ s) program (breakpoints st)) st)
        | None => (RInvalidLine, st)
        end
  | _ => (RFormat "add_breakpoint <program> <line>", st)
  end.

(** The [rmv_breakpoint] branch. *)
Definition rmv_breakpoint (args : string) (st : Server)
    : response * Server :=
  match PyStr.split args with
  | [program; line] =>
      if negb (Dict.mem program (programs st)) then (RNotFound program, st)
      else if busy program st then (RBusy program, st)
      else
        let st := setdefault_breakpoints program st in
        match py_int line with
        | Some n =>
            (RBreakpointRemoved line program,
             with_breakpoints
               (alter (fun s => s ∖ {[n]}) program (breakpoints st)) st)
        | None => (RInvalidLine, st)
        end
  | _ => (RFormat "rmv_breakpoint <program> <line>", st)
  end.

(** The [attach] branch. *)
Definition attach (args : string) (a : addr) (st : Server)
    : response * Server :=
  let program := args in
  if bool_decide (program = "") || negb (Dict.mem program (programs st))
  then (RNotFound program, st)
  else if Dict.mem program (debugging st) then (RAlreadyDebugged program, st)
  else
    match lookup_session a (debugging st) with
    | Some p => (RSessionBusy p, st)
    | None =>
        let st := with_debugging (Dict.set program a (debugging st)) st in
        (RAttached program,
         match states st !! program with
         | Some _ => st
         | None => fresh_context program st
         end)
    end.

(** [del self.debugging[p]] followed by the two [discard]s, as in
    [detach] and in the cleanup of [handle_client]. *)
Definition release (p : string) (st : Server) : Server :=
  clear_markers p (with_debugging (Dict.del p (debugging st)) st).

(** The [detach] branch. *)
Definition detach (a : addr) (st : Server) : response * Server :=
  match lookup_session a (debugging st) with
  | Some p => (RDetached p, release p st)
  | None => (RNotAttached, st)
  end.

(** The [finally] block of [handle_client]: every attachment of the
    client is released, iterating over a snapshot of
    [self.debugging.items()]. *)
Definition cleanup (a : addr) (st : Server) : Server :=
  fold_left
    (fun st pu => if decide (pu.2 = a) then release pu.1 st else st)
    (debugging st) st.

(** The [get_var] branch. *)
Definition get_var (program args : string) (st : Server)
    : response * Server :=
  let var := args in
  let c := match contexts st !! program with
           | Some l => heap_get l st
           | None => []
           end in
  match Dict.get var c with
  | Some v => (RVar var (repr v), st)
  | None => (RVarNotFound var, st)
  end.

(** The [set_var] branch; a missing [self.contexts[program]] raises
    [KeyError], which the [except] turns into a response. *)
Definition set_var (program args : string) (st : Server)
    : response * Server :=
  match PyStr.split_maxsplit1 args with
  | [var; val] =>
      match contexts st !! program with
      | None => (RError ("'" ++ program ++ "'"), st)
      | Some l =>
          match eval_expr val (heap_get l st) with
          | inl v =>
              (RVarSet var (repr v),
               heap_set l (Dict.set var v (heap_get l st)) st)
          | inr msg => (RError msg, st)
          end
      end
  | _ => (RFormat "set_var <name> <value>", st)
  end.

(** The commands that need an attachment: [program] is the first
    program the client debugs, and an empty name counts as none. *)
Definition attached_command (name args : string) (a : addr) (st : Server)
    : response * Server :=
  match lookup_session a (debugging st) with
  | None => (RNeedsAttachment name, st)
  | Some program =>
      if decide (program = "") then (RNeedsAttachment name, st)
      else if decide (name = "start") then run program st
      else if decide (name = "continue") then
        if bool_decide (program ∈ paused st) then cont program st
        else (RNotPaused program, st)
      else if decide (name = "get_var") then get_var program args st
      else if decide (name = "set_var") then set_var program args st
      else (RUnknown name, st)
  end.

(** [parts = cmd.split(maxsplit=1)] and [name, args = parts[0].lower(),
    parts[1] if len(parts) > 1 else ""] *)
Definition parse_command (cmd : string) : option (string * string) :=
  match PyStr.split_maxsplit1 cmd with
  | [] => None
  | name :: parts =>
      Some (PyStr.lower name, match parts with arg :: _ => arg | [] => "" end)
  end.

(** The chain of [if name == ...] of [process_command]. *)
Definition dispatch (name args : string) (a : addr) (st : Server)
    : response * Server :=
  if decide (name = "help") then (RHelp, st)
  else if decide (name = "list_programs")
  then (RPrograms (Dict.keys (programs st)), st)
  else if decide (name = "list_breakpoints") then list_breakpoints args st
  else if decide (name = "add_breakpoint") then add_breakpoint args st
  else if decide (name = "rmv_breakpoint") then rmv_breakpoint args st
  else if decide (name = "attach") then attach args a st
  else if decide (name = "detach") then detach a st
  else attached_command name args a st.

(** [DebuggerServer.process_command] *)
Definition process_command (cmd : string) (a : addr) (st : Server)
    : response * Server :=
  match parse_command cmd with
  | None => (RInvalidCommand, st)
  | Some (name, args) => dispatch name args a st
  end.

(** ** Runs of the server *)

(** One step: a client sends a command, or a connection ends and
    [handle_client] cleans up. *)
Inductive step (st : Server) : Server -> Prop :=
| step_command (cmd : string) (a : addr) :
    step st (process_command cmd a st).2
| step_disconnect (a : addr) :
    step st (cleanup a st).

(** The states a server started on [catalog] can be in between two
    commands. *)
Definition reachable (catalog : Dict.t string) (st : Server) : Prop :=
  rtc step (init catalog) st.

(** The attachment invariant: a program has at most one client and a
    client has at most one program. *)
Definition one_to_one (d : Dict.t addr) : Prop :=
  NoDup d.*1 ∧ NoDup d.*2.

(** Every attached program is in the catalog and has a non-empty
    name. *)
Definition attachments_known (st : Server) : Prop :=
  forall p a, (p, a) ∈ debugging st ->
    p <> "" /\ Dict.mem p (programs st) = true.

(** What holds of the attachment registry between any two commands. *)
Definition attach_invariant (st : Server) : Prop :=
  one_to_one (debugging st) /\ attachments_known st.

(** The program [a] debugs, as [process_command] resolves it. *)
Definition session_of (a : addr) (st : Server) : option string :=
  lookup_session a (debugging st).

(** [a] debugs [p]: the dispatcher finds [p] for [a], and [if not
    program] lets it through. *)
Definition attached (a : addr) (p : string) (st : Server) : Prop :=
  session_of a st = Some p /\ p <> "".

(** [p in self.programs] *)
Definition known (p : string) (st : Server) : Prop :=
  Dict.mem p (programs st) = true.

(** The execution status of a program, as the two marker sets give
    it. *)
Definition is_running (p : string) (st : Server) : Prop := p ∈ executing st.
Definition is_paused (p : string) (st : Server) : Prop := p ∈ paused st.

(** A state in which [p] is stopped at cursor [idx] with context [c],
    and which [a] can resume. *)
Definition stopped_at (a : addr) (p src : string) (bps : option (gset Z))
    (idx : nat) (l : loc) (c : Dict.t value) (st : Server) : Prop :=
  attached a p st
  /\ Dict.get p (programs st) = Some src
  /\ breakpoints st !! p = bps
  /\ states st !! p = Some (idx, l)
  /\ heap st !! l = Some c.

(** *** A debugging session: [start], then [continue] while the server
    answers with a breakpoint.  The lines of the breakpoints are
    collected in order. *)
Fixpoint continue_while_paused (fuel : nat) (a : addr) (r : response)
    (st : Server) : list Z * response * Server :=
  match r with
  | RBreakpointAt line _ =>
      match fuel with
      | 0 => ([line], r, st)
      | S fuel' =>
          let '(r', st') := process_command "continue" a st in
          let '(ps, rf, stf) := continue_while_paused fuel' a r' st' in
          (line :: ps, rf, stf)
      end
  | _ => ([], r, st)
  end.

Definition debug_session (fuel : nat) (a : addr) (st : Server)
    : list Z * response * Server :=
  let '(r, st') := process_command "start" a st in
  continue_while_paused fuel a r st'.

(** A line that the run loop hands to the interpreter. *)
Definition executable (l : string) : bool :=
  negb (PyStr.blank_or_comment (PyStr.strip l)).

(** The run loop resumed after every pause, in one pass over the
    lines: the breakpoint lines it stops at, and how it ends. *)
Fixpoint sweep (bps : option (gset Z)) (rest : list string) (idx : nat)
    (c : ctx) : list Z * loop_result :=
  match rest with
  | [] => ([], LoopFinished idx c)
  | l :: rest' =>
      let line := PyStr.strip l in
      let idx := S idx in
      if PyStr.blank_or_comment line then sweep bps rest' idx c
      else
        match exec_stmt line c with
        | ExecErr msg c' => ([], LoopErrored idx msg c')
        | ExecOk c' =>
            if breakpoint_hit bps idx
            then let '(ps, r) := sweep bps rest' idx c' in
                 ((Z.of_nat idx + 1)%Z :: ps, r)
            else sweep bps rest' idx c'
        end
  end.

End Server.

(** ** One connection

    [handle_client] for one client, given the messages [recv] delivers
    to it after decoding.  The server does not look for line ends: each
    message is stripped and handed to [process_command] as a whole.  A
    message that is empty after stripping ends the loop, and so does the
    end of the messages (the peer closed, [recv] returns nothing) and an
    exception that leaves [process_command].  Commands of other clients
    between two messages are not part of this function. *)

Section Connection.
Context `{!PyRuntime}.

(** The [while True] loop of [handle_client]: the responses sent, and
    the server when the loop is left. *)
Fixpoint serve (messages : list string) (a : addr) (st : Server)
    : list response * Server :=
  match messages with
  | [] => ([], st)
  | message :: rest =>
      match PyStr.strip message with
      | EmptyString => ([], st)
      | data =>
          let '(resp, st') := process_command data a st in
          match resp with
          | RRaised _ => ([], st')
          | _ =>
              let '(sent, st'') := serve rest a st' in
              (resp :: sent, st'')
          end
      end
  end.

(** [DebuggerServer.handle_client]: the loop, then the [finally]
    block. *)
Definition handle_client (messages : list string) (a : addr) (st : Server)
    : list response * Server :=
  let '(sent, st') := serve messages a st in
  (sent, cleanup a st').

(** *** What holds of the stores between two commands *)

(** No program is marked as executing, and a paused program has a
    client. *)
Definition markers_consistent (st : Server) : Prop :=
  executing st = ∅
  /\ forall p, p ∈ paused st -> Dict.mem p (debugging st) = true.

(** An attached program has an execution state; [self.contexts] and
    [self.states] refer to the same, allocated context object; two
    programs never share one; a cursor is at most the number of lines;
    and only catalog programs have a breakpoint entry. *)
Definition store_consistent (st : Server) : Prop :=
  (forall p a, (p, a) ∈ debugging st -> is_Some (states st !! p))
  /\ (forall p idx l, states st !! p = Some (idx, l) ->
        contexts st !! p = Some l /\ l < length (heap st))
  /\ (forall p q i j l, states st !! p = Some (i, l) ->
        states st !! q = Some (j, l) -> p = q)
  /\ (forall p idx l src, states st !! p = Some (idx, l) ->
        Dict.get p (programs st) = Some src ->
        idx <= length (PyStr.splitlines src))
  /\ (forall p s, breakpoints st !! p = Some s -> known p st).

Definition consistent (st : Server) : Prop :=
  attach_invariant st /\ markers_consistent st /\ store_consistent st.

(** The answers that report a failure of the server itself, or that a
    well-formed exchange never produces. *)
Definition internal_answer (r : response) : Prop :=
  match r with
  | RRaised _ | RStartFirst | RInvalidCommand => True
  | _ => False
  end.

(** The variable context of a program, as [get_var] reads it. *)
Definition context_of (p : string) (st : Server) : Dict.t value :=
  match contexts st !! p with
  | Some l => heap_get l st
  | None => []
  end.

(** The stored cursor of a program. *)
Definition cursor_of (p : string) (st : Server) : option nat :=
  fst <$> states st !! p.

(** *** The loop of [cont], one line at a time

    [advances bps lines idx c k c1]: entered with [idx, ctx = idx, c],
    the [while] loop of [cont] comes to its test with [idx, ctx = k, c1]
    without having returned.  Each line before [k] was either blank or a
    comment ([continue]), or a statement that [exec] ran without an
    exception and after which [idx + 1] was no breakpoint. *)
Inductive advances (bps : option (gset Z)) (lines : list string)
    (idx : nat) (c : Dict.t value) : nat -> Dict.t value -> Prop :=
| advances_start : advances bps lines idx c idx c
| advances_skip k c1 text :
    advances bps lines idx c k c1 ->
    lines !! k = Some text ->
    executable text = false ->
    advances bps lines idx c (S k) c1
| advances_exec k c1 c2 text :
    advances bps lines idx c k c1 ->
    lines !! k = Some text ->
    executable text = true ->
    exec_stmt (PyStr.strip text) c1 = ExecOk c2 ->
    (Z.of_nat k + 2)%Z ∉ default ∅ bps ->
    advances bps lines idx c (S k) c2.

End Connection.

(** ** The client ([src/client.py])

    The bookkeeping of [DebuggerClient.send_command]: which program the
    client believes it is attached to, given the command it sent and the
    text it received.  The socket calls are left out. *)

Module Client.

(** [c in s] for one character. *)
Fixpoint contains (c : ascii) (s : string) : bool :=
  match s with
  | EmptyString => false
  | String c' s' => if Ascii.eqb c' c then true else contains c s'
  end.

Fixpoint split_on_acc (sep : ascii) (cur : string) (s : string)
    : list string :=
  match s with
  | EmptyString => [cur]
  | String c s' =>
      if Ascii.eqb c sep then cur :: split_on_acc sep EmptyString s'
      else split_on_acc sep (cur ++ String c EmptyString) s'
  end.

(** [s.split(sep)] for a separator of one character. *)
Definition split_on (sep : ascii) (s : string) : list string :=
  split_on_acc sep EmptyString s.

(** [cmd_parts = cmd.strip().split(maxsplit=1)] and [cmd_name =
    cmd_parts[0].lower() if cmd_parts else ""] *)
Definition command_name (cmd : string) : string :=
  match PyStr.split_maxsplit1 (PyStr.strip cmd) with
  | name :: _ => PyStr.lower name
  | [] => EmptyString
  end.

(** The new value of [self.attached_program] once [response_text] is
    in: the text between the first two apostrophes after a successful
    [attach], nothing after a successful [detach], the old value
    otherwise. *)
Definition track_response (cmd response_text : string)
    (attached_program : option string) : option string :=
  let cmd_name := command_name cmd in
  if bool_decide (cmd_name = "attach")
     && PyStr.startswith "Attached to" response_text
  then
    if contains "'" response_text
    then match split_on "'" response_text with
         | _ :: program_name :: _ => Some program_name
         | _ => None
         end
    else None
  else if bool_decide (cmd_name = "detach")
          && PyStr.startswith "Detached from" response_text
  then None
  else attached_program.

(** The texts the server sends for a successful [attach] and
    [detach], as the client receives them (stripped). *)
Definition attached_text (program : string) : string :=
  "Attached to '" ++ program ++ "'".

Definition detached_text (program : string) : string :=
  "Detached from '" ++ program ++ "'".

End Client.

(** ** A stub interpreter: assignment and addition over integers

    Statements are [name = term + ... + term] with white space around
    [=] and [+]; a term is a decimal literal or a variable.  On such
    statements it agrees with Python's [exec]. *)

Module Stub.

Definition digit_of (c : ascii) : option Z :=
  let n := nat_of_ascii c in
  if (48 <=? n) && (n <=? 57) then Some (Z.of_nat (n - 48)) else None.

Fixpoint digits_acc (acc : Z) (s : string) : option Z :=
  match s with
  | EmptyString => Some acc
  | String c s' =>
      match digit_of c with
      | Some d => digits_acc (10 * acc + d)%Z s'
      | None => None
      end
  end.

(** A decimal literal with an optional sign. *)
Definition decimal (s : string) : option Z :=
  match s with
  | EmptyString => None
  | String "-" (String _ _ as s') => Z.opp <$> digits_acc 0%Z s'
  | String "+" (String _ _ as s') => digits_acc 0%Z s'
  | _ => digits_acc 0%Z s
  end.

Definition eval_term (t : string) (c : Dict.t Z) : Z + string :=
  match decimal t with
  | Some n => inl n
  | None =>
      match Dict.get t c with
      | Some v => inl v
      | None => inr ("name '" ++ t ++ "' is not defined")
      end
  end.

Fixpoint eval_sum (toks : list string) (c : Dict.t Z) : Z + string :=
  match toks with
  | [t] => eval_term t c
  | t :: op :: rest =>
      if decide (op = "+") then
        match eval_term t c, eval_sum rest c with
        | inl v1, inl v2 => inl (v1 + v2)%Z
        | inr msg, _ | _, inr msg => inr msg
        end
      else inr "invalid syntax"
  | [] => inr "invalid syntax"
  end.

Definition exec (line : string) (c : Dict.t Z) : exec_result Z :=
  match PyStr.split line with
  | x :: eq :: e =>
      if decide (eq = "=") then
        match eval_sum e c with
        | inl v => ExecOk (Dict.set x v c)
        | inr msg => ExecErr msg c
        end
      else ExecErr "invalid syntax" c
  | _ => ExecErr "invalid syntax" c
  end.

Definition eval (e : string) (c : Dict.t Z) : Z + string :=
  eval_sum (PyStr.split e) c.

Definition show (v : Z) : string :=
  DecimalString.NilZero.string_of_int (Z.to_int v).

Definition runtime : PyRuntime :=
  {| value := Z; exec_stmt := exec; eval_expr := eval; repr := show;
     py_int := decimal |}.

(** Two clients. *)
Definition alice : addr := ("127.0.0.1", 50001%N).
Definition bob : addr := ("127.0.0.1", 50002%N).

Definition LF : string := String (ascii_of_nat 10) EmptyString.

(** The program [demo] of the scenarios: three lines. *)
Definition demo_source : string :=
  "x = 1" ++ LF ++ "y = 2" ++ LF ++ "x = x + y".

(** A program whose second statement reads an unbound name. *)
Definition faulty_source : string :=
  "x = 1" ++ LF ++ "y = z + 1" ++ LF ++ "w = 2".

Definition catalog : Dict.t string :=
  [("demo", demo_source); ("other", "z = 5" ++ LF);
   ("faulty", faulty_source)].

Definition server0 : Server (H := runtime) := init catalog.

(** The server after a list of commands of one client. *)
Definition after (a : addr) (cmds : list string) (st : Server (H := runtime))
    : Server (H := runtime) :=
  fold_left (fun st cmd => (process_command (H := runtime) cmd a st).2)
    cmds st.

(** The servers of the scenarios. *)
Definition attached_demo : Server (H := runtime) :=
  after alice ["attach demo"] server0.

Definition breakpoint_at_2 : Server (H := runtime) :=
  after alice ["add_breakpoint demo 2"; "attach demo"] server0.

Definition paused_at_2 : Server (H := runtime) :=
  after alice ["start"] breakpoint_at_2.

Definition three_breakpoints : Server (H := runtime) :=
  after alice
    ["add_breakpoint demo 1"; "add_breakpoint demo 2";
     "add_breakpoint demo 10"; "attach demo"] server0.

Definition two_clients : Server (H := runtime) :=
  after alice ["attach demo"] (after bob ["attach other"] server0).

Definition second_run : Server (H := runtime) :=
  after alice ["attach demo"; "start"; "set_var x 40"] server0.


(** Two programs with an execution state: [other] has run to its end
    for [bob], [demo] is paused at line 2 for [alice]. *)
Definition two_runs : Server (H := runtime) :=
  after alice ["start"]
    (after bob ["start"]
       (after alice ["add_breakpoint demo 2"] two_clients)).

(** A catalog with a program that has no statement. *)
Definition notes_source : string := "# to do" ++ LF ++ LF ++ "   ".

Definition notes_server : Server (H := runtime) :=
  after alice ["add_breakpoint notes 2"; "attach notes"]
    (init [("notes", notes_source)]).

(** [demo] with breakpoints at lines 2 and 3, paused at line 2. *)
Definition paused_before_3 : Server (H := runtime) :=
  after alice
    ["add_breakpoint demo 2"; "add_breakpoint demo 3"; "attach demo";
     "start"] server0.






End Stub.

(** * Properties of the server *)

Section Claims.
Context `{!PyRuntime}.
Implicit Types (st : Server) (a : addr) (p program : string).

(** ** The dispatcher *)

Lemma process_command_parsed cmd name args a st :
  parse_command cmd = Some (name, args) ->
  process_command cmd a st = dispatch name args a st.
Proof. intros Hp. unfold process_command. by rewrite Hp. Qed.

Lemma busy_true p st : busy p st = true <-> is_running p st \/ is_paused p st.
Proof.
  unfold busy, is_running, is_paused.
  rewrite orb_true_iff, !bool_decide_eq_true. tauto.
Qed.

Lemma busy_false p st :
  busy p st = false <-> ~ (is_running p st \/ is_paused p st).
Proof. rewrite <- busy_true. destruct (busy p st); naive_solver. Qed.

Lemma setdefault_lookup p st :
  breakpoints (setdefault_breakpoints p st) !! p
  = Some (default ∅ (breakpoints st !! p)).
Proof.
  unfold setdefault_breakpoints.
  destruct (breakpoints st !! p) eqn:E; simpl; [done|].
  by rewrite lookup_insert_eq.
Qed.

(** ** Breakpoint edits *)

Lemma add_breakpoint_busy args p line st :
  PyStr.split args = [p; line] -> known p st -> busy p st = true ->
  add_breakpoint args st = (RBusy p, st).
Proof.
  intros Hs Hk Hb. unfold add_breakpoint. rewrite Hs.
  unfold known in Hk. by rewrite Hk, Hb.
Qed.

Lemma rmv_breakpoint_busy args p line st :
  PyStr.split args = [p; line] -> known p st -> busy p st = true ->
  rmv_breakpoint args st = (RBusy p, st).
Proof.
  intros Hs Hk Hb. unfold rmv_breakpoint. rewrite Hs.
  unfold known in Hk. by rewrite Hk, Hb.
Qed.

Lemma add_breakpoint_idle args p line n st :
  PyStr.split args = [p; line] -> known p st -> busy p st = false ->
  py_int line = Some n ->
  exists st', add_breakpoint args st = (RBreakpointSet line p, st')
    /\ breakpoints st' !! p = Some ({[n]} ∪ default ∅ (breakpoints st !! p)).
Proof.
  intros Hs Hk Hb Hn. unfold add_breakpoint. rewrite Hs.
  unfold known in Hk. rewrite Hk, Hb, Hn. simpl.
  eexists; split; [done|]. simpl.
  by rewrite lookup_alter_eq, setdefault_lookup.
Qed.

Lemma rmv_breakpoint_idle args p line n st :
  PyStr.split args = [p; line] -> known p st -> busy p st = false ->
  py_int line = Some n ->
  exists st', rmv_breakpoint args st = (RBreakpointRemoved line p, st')
    /\ breakpoints st' !! p = Some (default ∅ (breakpoints st !! p) ∖ {[n]}).
Proof.
  intros Hs Hk Hb Hn. unfold rmv_breakpoint. rewrite Hs.
  unfold known in Hk. rewrite Hk, Hb, Hn. simpl.
  eexists; split; [done|]. simpl.
  by rewrite lookup_alter_eq, setdefault_lookup.
Qed.


(** C4. For an existing program [p] and a line token that [int]
    accepts, [add_breakpoint p line] and [rmv_breakpoint p line] answer
    Busy exactly when [p] is running or paused, and then change nothing;
    otherwise they succeed: the line is added to, respectively removed
    from, the breakpoint set of [p]. *)
Theorem breakpoint_edit_busy_rule cmd name args a st p line n :
  parse_command cmd = Some (name, args) ->
  name = "add_breakpoint" \/ name = "rmv_breakpoint" ->
  PyStr.split args = [p; line] ->
  known p st ->
  py_int line = Some n ->
  ((process_command cmd a st).1 = RBusy p
     <-> is_running p st \/ is_paused p st) /\
  (is_running p st \/ is_paused p st -> (process_command cmd a st).2 = st) /\
  (~ (is_running p st \/ is_paused p st) ->
     (name = "add_breakpoint" ->
        (process_command cmd a st).1 = RBreakpointSet line p /\
        breakpoints (process_command cmd a st).2 !! p
        = Some ({[n]} ∪ default ∅ (breakpoints st !! p))) /\
     (name = "rmv_breakpoint" ->
        (process_command cmd a st).1 = RBreakpointRemoved line p /\
        breakpoints (process_command cmd a st).2 !! p
        = Some (default ∅ (breakpoints st !! p) ∖ {[n]}))).
Proof.
  intros Hp Hname Hs Hk Hn.
  rewrite (process_command_parsed _ _ _ _ _ Hp).
  destruct (busy p st) eqn:Hb.
  - pose proof (proj1 (busy_true p st) Hb) as Hbusy.
    assert (dispatch name args a st = (RBusy p, st)) as ->.
    { destruct Hname as [-> | ->]; unfold dispatch; simpl;
        eauto using add_breakpoint_busy, rmv_breakpoint_busy. }
    simpl. split_and!; [tauto | done | tauto].
  - pose proof (proj1 (busy_false p st) Hb) as Hidle.
    destruct Hname as [-> | ->]; unfold dispatch; simpl.
    + destruct (add_breakpoint_idle _ _ _ _ _ Hs Hk Hb Hn) as (st' & -> & Hl).
      simpl. split_and!; [split; [done | tauto] | tauto |].
      intros _. split; [done | discriminate].
    + destruct (rmv_breakpoint_idle _ _ _ _ _ Hs Hk Hb Hn) as (st' & -> & Hl).
      simpl. split_and!; [split; [done | tauto] | tauto |].
      intros _. split; [discriminate | done].
Qed.


Lemma sorted_le_nodup_lt (l : list Z) :
  StronglySorted Z.le l -> NoDup l -> StronglySorted Z.lt l.
Proof.
  induction 1 as [|x l Hs IH Hall]; intros Hnd; [constructor|].
  apply NoDup_cons in Hnd as [Hx Hnd].
  constructor; [by apply IH|].
  rewrite Forall_forall in Hall |- *. intros y Hy.
  specialize (Hall y Hy).
  assert (x <> y) by (intros ->; done). lia.
Qed.

(** [sorted] lists the elements of the set, each once, in increasing
    order. *)
Lemma sorted_spec (s : gset Z) :
  StronglySorted Z.lt (sorted s) /\ forall x, x ∈ sorted s <-> x ∈ s.
Proof.
  unfold sorted.
  assert (merge_sort Z.le (elements s) ≡ₚ elements s) as Hperm
    by apply merge_sort_Permutation.
  split.
  - apply sorted_le_nodup_lt.
    + apply StronglySorted_merge_sort; apply _.
    + rewrite Hperm. apply NoDup_elements.
  - intros x. by rewrite Hperm, elem_of_elements.
Qed.

Lemma sorted_empty : sorted ∅ = [].
Proof. unfold sorted. by rewrite elements_empty. Qed.

Lemma list_breakpoints_some args s st :
  breakpoints st !! args = Some s ->
  list_breakpoints args st = (RBreakpoints args (sorted s), st).
Proof. intros Hl. unfold list_breakpoints. by rewrite Hl. Qed.

Lemma list_breakpoints_none args st :
  breakpoints st !! args = None ->
  list_breakpoints args st = (RNotFound args, st).
Proof. intros Hl. unfold list_breakpoints. by rewrite Hl. Qed.

(** C10. [add_breakpoint p line] with a token that [int] rejects, on an
    existing program that is neither running nor paused and has no
    breakpoint entry yet, answers InvalidLine and still leaves an empty
    breakpoint set for [p] in the store: [list_breakpoints p] answered
    NotFound before and answers the empty list afterwards. *)
Theorem invalid_line_creates_entry cmd args cmd_list a b st p line :
  parse_command cmd = Some ("add_breakpoint", args) ->
  PyStr.split args = [p; line] ->
  known p st ->
  ~ (is_running p st \/ is_paused p st) ->
  py_int line = None ->
  breakpoints st !! p = None ->
  parse_command cmd_list = Some ("list_breakpoints", p) ->
  process_command cmd a st
  = (RInvalidLine, with_breakpoints (<[p := ∅]> (breakpoints st)) st) /\
  breakpoints (process_command cmd a st).2 !! p = Some ∅ /\
  (process_command cmd_list b st).1 = RNotFound p /\
  (process_command cmd_list b (process_command cmd a st).2).1
  = RBreakpoints p [].
Proof.
  intros Hp Hs Hk Hidle Hn Hnone Hl.
  apply busy_false in Hidle. unfold known in Hk.
  assert (process_command cmd a st
          = (RInvalidLine, with_breakpoints (<[p := ∅]> (breakpoints st)) st))
    as Heq.
  { rewrite (process_command_parsed _ _ _ _ _ Hp). unfold dispatch. simpl.
    unfold add_breakpoint. rewrite Hs, Hk, Hidle. simpl.
    unfold setdefault_breakpoints. by rewrite Hnone, Hn. }
  rewrite Heq. simpl. rewrite lookup_insert_eq.
  rewrite !(process_command_parsed _ _ _ _ _ Hl). unfold dispatch. simpl.
  split_and!; [done | done | |].
  - by rewrite list_breakpoints_none.
  - erewrite list_breakpoints_some; [|simpl; apply lookup_insert_eq].
    simpl. by rewrite sorted_empty.
Qed.


(** ** Dictionaries *)

Lemma dict_get_None {V} k (d : Dict.t V) : Dict.get k d = None <-> k ∉ d.*1.
Proof.
  induction d as [|[k' v] d IH]; simpl.
  - split; [intros _; apply not_elem_of_nil | done].
  - rewrite not_elem_of_cons. destruct (decide (k' = k)) as [->|Hne].
    + split; [done | intros [? _]; done].
    + rewrite IH. split; [intros ?; split; [congruence | done] | tauto].
Qed.

Lemma dict_mem_true {V} k (d : Dict.t V) : Dict.mem k d = true <-> k ∈ d.*1.
Proof.
  unfold Dict.mem. destruct (Dict.get k d) eqn:E.
  - split; [intros _ | done].
    destruct (decide (k ∈ d.*1)) as [|Hn]; [done|].
    apply dict_get_None in Hn. congruence.
  - split; [done|]. apply dict_get_None in E. done.
Qed.

Lemma dict_mem_false {V} k (d : Dict.t V) : Dict.mem k d = false <-> k ∉ d.*1.
Proof. rewrite <- dict_mem_true. destruct (Dict.mem k d); naive_solver. Qed.

Lemma dict_set_fresh {V} k (v : V) (d : Dict.t V) :
  k ∉ d.*1 -> Dict.set k v d = (d ++ [(k, v)])%list.
Proof.
  induction d as [|[k' v'] d IH]; simpl; [done|].
  rewrite not_elem_of_cons. intros [Hne Hk].
  destruct (decide (k' = k)); [congruence|]. by rewrite IH.
Qed.

Lemma dict_del_elem {V} k (d : Dict.t V) q (v : V) :
  (q, v) ∈ Dict.del k d <-> (q, v) ∈ d /\ q <> k.
Proof. unfold Dict.del. rewrite list_elem_of_filter. simpl. tauto. Qed.

Lemma dict_del_keys {V} k (d : Dict.t V) : k ∉ (Dict.del k d).*1.
Proof.
  rewrite list_elem_of_fmap. intros ([q v] & -> & Hin).
  apply dict_del_elem in Hin. simpl in Hin. tauto.
Qed.

Lemma dict_del_sublist {V} k (d : Dict.t V) : Dict.del k d `sublist_of` d.
Proof. apply sublist_filter. Qed.

Lemma lookup_session_None a (d : Dict.t addr) :
  lookup_session a d = None <-> a ∉ d.*2.
Proof.
  unfold lookup_session.
  induction d as [|[p b] d IH]; simpl.
  - split; [intros _; apply not_elem_of_nil | done].
  - rewrite not_elem_of_cons. case_bool_decide as Hb; simpl in *.
    + subst. split; [done | intros [? _]; done].
    + rewrite IH. split; [intros ?; split; [congruence | done] | tauto].
Qed.

Lemma lookup_session_Some a p (d : Dict.t addr) :
  lookup_session a d = Some p -> (p, a) ∈ d.
Proof.
  unfold lookup_session.
  induction d as [|[q b] d IH]; simpl; [done|].
  case_bool_decide as Hb; simpl in *.
  - intros [= ->]. subst. apply list_elem_of_here.
  - intros Hf. apply list_elem_of_further. by apply IH.
Qed.

Lemma lookup_session_unique a p (d : Dict.t addr) :
  NoDup d.*2 -> (p, a) ∈ d -> lookup_session a d = Some p.
Proof.
  unfold lookup_session.
  induction d as [|[q b] d IH]; simpl; [by intros _ ?%elem_of_nil|].
  intros [Hb Hnd]%NoDup_cons Hin.
  apply elem_of_cons in Hin as [[= -> ->] | Hin].
  - by rewrite bool_decide_eq_true_2.
  - case_bool_decide as Hba; simpl in *; [|by apply IH].
    subst. exfalso. apply Hb.
    change a with (snd (p, a)). by apply list_elem_of_fmap_2.
Qed.

Lemma one_to_one_sublist (d d' : Dict.t addr) :
  d' `sublist_of` d -> one_to_one d -> one_to_one d'.
Proof.
  intros Hsub [Hk Hv]. split.
  - eapply sublist_NoDup; [exact Hk | by apply fmap_sublist].
  - eapply sublist_NoDup; [exact Hv | by apply fmap_sublist].
Qed.

Lemma one_to_one_attach p a (d : Dict.t addr) :
  one_to_one d -> p ∉ d.*1 -> a ∉ d.*2 -> one_to_one (Dict.set p a d).
Proof.
  intros [Hk Hv] Hp Ha. rewrite dict_set_fresh by done.
  split; rewrite fmap_app; simpl; apply NoDup_app; split_and!; try done.
  - intros x Hx ->%list_elem_of_singleton. done.
  - apply NoDup_singleton.
  - intros x Hx ->%list_elem_of_singleton. done.
  - apply NoDup_singleton.
Qed.


(** ** What the commands leave alone *)

Ltac unfold_commands :=
  unfold dispatch, attached_command, list_breakpoints, add_breakpoint,
    rmv_breakpoint, get_var, set_var, run, cont, store_result,
    setdefault_breakpoints, fresh_context, heap_set, mark_running,
    mark_paused, clear_markers.

Ltac split_cases :=
  repeat first [ progress simpl | case_decide | case_match ]; try done.

Lemma cont_frame p st :
  programs (cont p st).2 = programs st
  /\ debugging (cont p st).2 = debugging st
  /\ breakpoints (cont p st).2 = breakpoints st.
Proof. unfold_commands. split_cases. Qed.

Lemma run_frame p st :
  programs (run p st).2 = programs st
  /\ debugging (run p st).2 = debugging st
  /\ breakpoints (run p st).2 = breakpoints st.
Proof. unfold_commands. split_cases. Qed.

Lemma attached_command_frame name args a st :
  programs (attached_command name args a st).2 = programs st
  /\ debugging (attached_command name args a st).2 = debugging st.
Proof.
  unfold attached_command.
  destruct (lookup_session a (debugging st)); [|done].
  repeat case_decide; try done.
  - split; apply run_frame.
  - case_bool_decide; [split; apply cont_frame | done].
  - unfold_commands. split_cases.
  - unfold_commands. split_cases.
Qed.

Lemma dispatch_programs name args a st :
  programs (dispatch name args a st).2 = programs st.
Proof.
  unfold dispatch.
  repeat case_decide; try done; try apply attached_command_frame.
  - unfold_commands. split_cases.
  - unfold_commands. split_cases.
  - unfold_commands. split_cases.
  - unfold attach. unfold_commands. split_cases.
  - unfold detach, release. unfold_commands. split_cases.
Qed.

Lemma dispatch_debugging name args a st :
  name <> "attach" -> name <> "detach" ->
  debugging (dispatch name args a st).2 = debugging st.
Proof.
  intros Hna Hnd.
  unfold dispatch.
  repeat case_decide; try done; try apply attached_command_frame.
  - unfold_commands. split_cases.
  - unfold_commands. split_cases.
  - unfold_commands. split_cases.
Qed.


(** ** Attaching and detaching *)

Lemma attach_unknown args a st :
  args = "" \/ Dict.mem args (programs st) = false ->
  attach args a st = (RNotFound args, st).
Proof.
  intros Hu. unfold attach.
  destruct Hu as [-> | ->]; [done|].
  by rewrite orb_true_r.
Qed.

Lemma attach_taken args a st :
  args <> "" -> known args st -> Dict.mem args (debugging st) = true ->
  attach args a st = (RAlreadyDebugged args, st).
Proof.
  intros Hne Hk Hd. unfold attach. unfold known in Hk.
  by rewrite bool_decide_eq_false_2, Hk, Hd.
Qed.

Lemma attach_session_busy args a p st :
  args <> "" -> known args st -> Dict.mem args (debugging st) = false ->
  lookup_session a (debugging st) = Some p ->
  attach args a st = (RSessionBusy p, st).
Proof.
  intros Hne Hk Hd Hs. unfold attach. unfold known in Hk.
  by rewrite bool_decide_eq_false_2, Hk, Hd, Hs.
Qed.

Lemma attach_free args a st :
  args <> "" -> known args st -> Dict.mem args (debugging st) = false ->
  lookup_session a (debugging st) = None ->
  exists st', attach args a st = (RAttached args, st')
    /\ debugging st' = Dict.set args a (debugging st)
    /\ programs st' = programs st.
Proof.
  intros Hne Hk Hd Hs. unfold attach. unfold known in Hk.
  rewrite bool_decide_eq_false_2, Hk, Hd, Hs by done. simpl.
  eexists. split; [done|].
  destruct (states st !! args); done.
Qed.

(** The outcome of [attach] is one of the four above. *)
Lemma attach_cases args a st :
  attach args a st = (RNotFound args, st)
  \/ attach args a st = (RAlreadyDebugged args, st)
  \/ (exists p, attach args a st = (RSessionBusy p, st))
  \/ (args <> "" /\ known args st /\ (args ∉ (debugging st).*1)
      /\ (a ∉ (debugging st).*2)
      /\ exists st', attach args a st = (RAttached args, st')
           /\ debugging st' = Dict.set args a (debugging st)
           /\ programs st' = programs st).
Proof.
  destruct (decide (args = "")) as [He|Hne];
    [left; apply attach_unknown; by left|].
  destruct (Dict.mem args (programs st)) eqn:Hk;
    [|left; apply attach_unknown; by right].
  destruct (Dict.mem args (debugging st)) eqn:Hd;
    [right; left; by apply attach_taken|].
  destruct (lookup_session a (debugging st)) as [p|] eqn:Hs;
    [right; right; left; exists p; by apply attach_session_busy|].
  right; right; right. split_and!; try done.
  - by apply dict_mem_false.
  - by apply lookup_session_None.
  - by apply attach_free.
Qed.

Lemma attach_preserves args a st :
  attach_invariant st -> attach_invariant (attach args a st).2.
Proof.
  intros [Hone Hknown].
  destruct (attach_cases args a st)
    as [-> | [-> | [[p ->] | (Hne & Hk & Hp & Ha & st' & -> & Hd & Hprog)]]];
    try done.
  simpl. split.
  - rewrite Hd. by apply one_to_one_attach.
  - intros q b. rewrite Hd, dict_set_fresh by done.
    rewrite elem_of_app, list_elem_of_singleton, Hprog.
    intros [Hin | [= -> ->]]; [exact (Hknown _ _ Hin) | done].
Qed.

Lemma release_preserves p st :
  attach_invariant st -> attach_invariant (release p st).
Proof.
  intros [Hone Hknown]. split; simpl.
  - eapply one_to_one_sublist; [apply dict_del_sublist | done].
  - intros q b Hin. apply dict_del_elem in Hin as [Hin _].
    exact (Hknown _ _ Hin).
Qed.

Lemma detach_preserves a st :
  attach_invariant st -> attach_invariant (detach a st).2.
Proof.
  intros Hinv. unfold detach.
  destruct (lookup_session a (debugging st)); [|done].
  by apply release_preserves.
Qed.

Lemma cleanup_preserves a st :
  attach_invariant st -> attach_invariant (cleanup a st).
Proof.
  unfold cleanup. generalize (debugging st) as snapshot.
  intros snapshot. revert st.
  induction snapshot as [|[p u] snapshot IH]; intros st Hinv; simpl; [done|].
  apply IH. case_decide; [by apply release_preserves | done].
Qed.

Lemma dispatch_preserves name args a st :
  attach_invariant st -> attach_invariant (dispatch name args a st).2.
Proof.
  intros Hinv.
  destruct (decide (name = "attach")) as [->|Hna];
    [by apply attach_preserves|].
  destruct (decide (name = "detach")) as [->|Hnd];
    [by apply detach_preserves|].
  destruct Hinv as [Hone Hknown]. split.
  - by rewrite dispatch_debugging.
  - intros p b. rewrite dispatch_debugging by done.
    rewrite dispatch_programs. apply Hknown.
Qed.

Lemma step_preserves st st' :
  step st st' -> attach_invariant st -> attach_invariant st'.
Proof.
  intros [cmd a | a] Hinv; [|by apply cleanup_preserves].
  unfold process_command.
  destruct (parse_command cmd) as [[name args]|]; [|done].
  by apply dispatch_preserves.
Qed.

Lemma reachable_invariant catalog st :
  reachable catalog st -> attach_invariant st.
Proof.
  unfold reachable. intros Hr.
  apply rtc_ind_r with (x := init catalog) (P := attach_invariant) in Hr;
    [done | | eauto using step_preserves].
  split.
  - split; simpl; apply NoDup_nil_2.
  - intros p a Hin. simpl in Hin. by apply elem_of_nil in Hin.
Qed.


Lemma one_to_one_program (d : Dict.t addr) p a b :
  one_to_one d -> (p, a) ∈ d -> (p, b) ∈ d -> a = b.
Proof.
  intros [Hk _]. induction d as [|[q c] d IH]; [by intros ?%elem_of_nil|].
  simpl in Hk. apply NoDup_cons in Hk as [Hq Hk].
  assert (forall v, (q, v) ∈ d -> False) as Hfresh.
  { intros v Hv. apply Hq. change q with (fst (q, v)).
    by apply list_elem_of_fmap_2. }
  intros Ha%elem_of_cons Hb%elem_of_cons.
  destruct Ha as [Ha | Ha], Hb as [Hb | Hb].
  - congruence.
  - injection Ha as -> ->. by destruct (Hfresh _ Hb).
  - injection Hb as -> ->. by destruct (Hfresh _ Ha).
  - by apply IH.
Qed.

Lemma one_to_one_session (d : Dict.t addr) p q a :
  one_to_one d -> (p, a) ∈ d -> (q, a) ∈ d -> p = q.
Proof.
  intros [_ Hv] Hp Hq.
  apply (lookup_session_unique _ _ _ Hv) in Hp.
  apply (lookup_session_unique _ _ _ Hv) in Hq. congruence.
Qed.

Lemma dict_mem_attached p (d : Dict.t addr) :
  Dict.mem p d = true <-> exists b, (p, b) ∈ d.
Proof.
  rewrite dict_mem_true, list_elem_of_fmap. split.
  - intros ([q b] & -> & Hin). by exists b.
  - intros [b Hin]. by exists (p, b).
Qed.

(** C2. Between any two commands of any clients, and after any
    disconnection, a program has at most one client and a client has at
    most one program.  [attach] checks, in this order: an unknown program
    is NotFound; a program that has a client is AlreadyAttached; a client
    that has a program is SessionBusy.  A failed [attach] leaves the
    server as it was, and otherwise the client is attached. *)
Theorem attachment_is_exclusive catalog st :
  reachable catalog st ->
  (forall p a b, (p, a) ∈ debugging st -> (p, b) ∈ debugging st -> a = b) /\
  (forall a p q, (p, a) ∈ debugging st -> (q, a) ∈ debugging st -> p = q) /\
  forall cmd program a,
    parse_command cmd = Some ("attach", program) ->
    (~ known program st ->
       process_command cmd a st = (RNotFound program, st)) /\
    ((exists b, (program, b) ∈ debugging st) ->
       process_command cmd a st = (RAlreadyDebugged program, st)) /\
    (forall p, program <> "" -> known program st ->
       ~ (exists b, (program, b) ∈ debugging st) ->
       (p, a) ∈ debugging st ->
       process_command cmd a st = (RSessionBusy p, st)) /\
    ((process_command cmd a st).1 <> RAttached program ->
       (process_command cmd a st).2 = st) /\
    ((process_command cmd a st).1 = RAttached program ->
       (program, a) ∈ debugging (process_command cmd a st).2).
Proof.
  intros Hr. pose proof (reachable_invariant _ _ Hr) as [Hone Hknown].
  split_and!.
  - intros p a b. by apply one_to_one_program.
  - intros a p q. by apply one_to_one_session.
  - intros cmd program a Hp.
    rewrite (process_command_parsed _ _ _ _ _ Hp).
    change (dispatch "attach" program a st) with (attach program a st).
    split_and!.
    + intros Hu. apply attach_unknown. right.
      unfold known in Hu. by destruct (Dict.mem program (programs st)).
    + intros [b Hb]. destruct (Hknown _ _ Hb) as [Hne Hk].
      apply attach_taken; try done. apply dict_mem_attached. by exists b.
    + intros p Hne Hk Hfree Ha.
      apply attach_session_busy; try done.
      * destruct (Dict.mem program (debugging st)) eqn:E; [|done].
        apply dict_mem_attached in E. done.
      * apply lookup_session_unique; [apply Hone | done].
    + destruct (attach_cases program a st)
        as [-> | [-> | [[p ->] | (_ & _ & _ & _ & st' & -> & _)]]]; done.
    + destruct (attach_cases program a st)
        as [-> | [-> | [[p ->] | (_ & _ & Hp' & _ & st' & -> & Hd & _)]]];
        try done.
      intros _. simpl. rewrite Hd, dict_set_fresh by done.
      apply elem_of_app. right. by apply list_elem_of_singleton.
Qed.


(** ** The run loop and [cont] *)

Lemma cont_eq p st idx l src :
  states st !! p = Some (idx, l) ->
  Dict.get p (programs st) = Some src ->
  cont p st =
  let res := run_loop (breakpoints st !! p) (drop idx (PyStr.splitlines src))
               idx (heap_get l st) in
  (loop_response p res, store_result p l res (mark_running p st)).
Proof.
  intros Hs Hp. unfold cont. rewrite Hs. simpl. by rewrite Hp.
Qed.

Lemma store_result_frame p l res st :
  programs (store_result p l res st) = programs st
  /\ debugging (store_result p l res st) = debugging st
  /\ breakpoints (store_result p l res st) = breakpoints st
  /\ contexts (store_result p l res st) = contexts st
  /\ heap (store_result p l res st) = <[l := loop_ctx res]> (heap st).
Proof. destruct res; done. Qed.

Lemma store_result_states p l res st idx :
  states st !! p = Some (idx, l) ->
  states (store_result p l res st) !! p = Some (loop_cursor idx res, l).
Proof. intros Hs. destruct res; simpl; by rewrite ?lookup_insert_eq. Qed.

Lemma store_result_markers p l res st :
  ~ is_running p (store_result p l res st)
  /\ (is_paused p (store_result p l res st)
      <-> exists idx c up, res = LoopPaused idx c up).
Proof.
  unfold is_running, is_paused.
  destruct res; simpl; (split; [set_solver|]).
  - split; [eauto | set_solver].
  - split; [set_solver | by intros (? & ? & ? & ?)].
  - split; [set_solver | by intros (? & ? & ? & ?)].
Qed.

Lemma run_loop_paused bps rest idx c idx' c' up :
  run_loop bps rest idx c = LoopPaused idx' c' up ->
  idx < idx' <= idx + length rest
  /\ breakpoint_hit bps idx' = true
  /\ up = upcoming_text (drop (idx' - idx) rest).
Proof.
  revert idx c. induction rest as [|l rest IH]; intros idx c; simpl; [done|].
  destruct (PyStr.blank_or_comment (PyStr.strip l)).
  - intros Hr. apply IH in Hr as (Hb & Hh & Hu). (split; [lia|]); (split; [done|]).
    replace (idx' - idx) with (S (idx' - S idx)) by lia. done.
  - destruct (exec_stmt (PyStr.strip l) c) as [c1 | msg c1]; [|done].
    destruct (breakpoint_hit bps (S idx)) eqn:Hhit.
    + intros [= <- <- <-]. (split; [lia|]); (split; [done|]).
      by replace (S idx - idx) with 1 by lia.
    + intros Hr. apply IH in Hr as (Hb & Hh & Hu). (split; [lia|]); (split; [done|]).
      replace (idx' - idx) with (S (idx' - S idx)) by lia. done.
Qed.

Lemma run_loop_errored bps rest idx c line msg c' :
  run_loop bps rest idx c = LoopErrored line msg c' ->
  idx < line <= idx + length rest
  /\ exists text c0, rest !! (line - 1 - idx) = Some text
       /\ executable text = true
       /\ exec_stmt (PyStr.strip text) c0 = ExecErr msg c'.
Proof.
  revert idx c. induction rest as [|l rest IH]; intros idx c; simpl; [done|].
  unfold executable.
  destruct (PyStr.blank_or_comment (PyStr.strip l)) eqn:Hblank.
  - intros Hr. apply IH in Hr as (Hb & text & c0 & Hl & Hx).
    split; [lia|]. exists text, c0. split; [|done].
    replace (line - 1 - idx) with (S (line - 1 - S idx)) by lia. done.
  - destruct (exec_stmt (PyStr.strip l) c) as [c1 | msg1 c1] eqn:Hexec.
    + destruct (breakpoint_hit bps (S idx)); [done|].
      intros Hr. apply IH in Hr as (Hb & text & c0 & Hl & Hx).
      split; [lia|]. exists text, c0. split; [|done].
      replace (line - 1 - idx) with (S (line - 1 - S idx)) by lia. done.
    + intros [= <- <- <-]. split; [lia|]. exists l, c.
      replace (S idx - 1 - idx) with 0 by lia. simpl.
      by rewrite Hblank.
Qed.


(** ** The loop of [cont], line by line *)

Lemma breakpoint_hit_next bps k :
  breakpoint_hit bps (S k)
  = bool_decide ((Z.of_nat k + 2)%Z ∈ default ∅ bps).
Proof.
  destruct bps as [s|]; simpl.
  - by replace (Z.of_nat (S k) + 1)%Z with (Z.of_nat k + 2)%Z by lia.
  - symmetry. apply bool_decide_eq_false_2. set_solver.
Qed.

Lemma upcoming_text_drop n (lines : list string) :
  upcoming_text (drop n lines)
  = match lines !! n with
    | Some text => PyStr.strip text
    | None => "end of program"
    end.
Proof.
  revert n. induction lines as [|l lines IH]; intros [|n]; simpl; done.
Qed.

Lemma run_loop_at bps lines k text c :
  lines !! k = Some text ->
  run_loop bps (drop k lines) k c
  = if executable text
    then match exec_stmt (PyStr.strip text) c with
         | ExecErr msg c' => LoopErrored (S k) msg c'
         | ExecOk c' =>
             if bool_decide ((Z.of_nat k + 2)%Z ∈ default ∅ bps)
             then LoopPaused (S k) c'
                    match lines !! S k with
                    | Some next => PyStr.strip next
                    | None => "end of program"
                    end
             else run_loop bps (drop (S k) lines) (S k) c'
         end
    else run_loop bps (drop (S k) lines) (S k) c.
Proof.
  intros Hl. rewrite (drop_S _ _ _ Hl). simpl. unfold executable.
  rewrite breakpoint_hit_next, upcoming_text_drop.
  by destruct (PyStr.blank_or_comment (PyStr.strip text)).
Qed.

Lemma run_loop_past bps (lines : list string) k c :
  lines !! k = None -> run_loop bps (drop k lines) k c = LoopFinished k c.
Proof.
  intros Hl. apply lookup_ge_None in Hl. by rewrite drop_ge.
Qed.

(** The loop entered at [idx, c] is the loop entered at any point it
    comes to. *)
Lemma advances_run_loop bps lines idx c k c1 :
  advances bps lines idx c k c1 ->
  idx <= k
  /\ run_loop bps (drop idx lines) idx c = run_loop bps (drop k lines) k c1.
Proof.
  induction 1 as [|k c1 text _ [Hle IH] Hl Hx
                  |k c1 c2 text _ [Hle IH] Hl Hx He Hb]; [done| |].
  - split; [lia|]. by rewrite IH, (run_loop_at _ _ _ _ _ Hl), Hx.
  - split; [lia|]. rewrite IH, (run_loop_at _ _ _ _ _ Hl), Hx, He.
    by rewrite bool_decide_eq_false_2.
Qed.

(** The loop ends: from wherever it has come to, it comes to the end of
    the lines, to a statement that fails, or to a statement after which
    it pauses. *)
Lemma advances_ends bps lines idx c n :
  forall k c1,
    length lines - k = n ->
    advances bps lines idx c k c1 ->
    exists k' c',
      advances bps lines idx c k' c'
      /\ (lines !! k' = None
          \/ exists text,
               lines !! k' = Some text /\ executable text = true
               /\ match exec_stmt (PyStr.strip text) c' with
                  | ExecOk _ => (Z.of_nat k' + 2)%Z ∈ default ∅ bps
                  | ExecErr _ _ => True
                  end).
Proof.
  induction n as [|n IH]; intros k c1 Hn Ha.
  - exists k, c1. split; [done|]. left. apply lookup_ge_None. lia.
  - destruct (lookup_lt_is_Some_2 lines k) as [text Hl]; [lia|].
    destruct (executable text) eqn:Hx.
    + destruct (exec_stmt (PyStr.strip text) c1) as [c2|msg c2] eqn:He.
      * destruct (decide ((Z.of_nat k + 2)%Z ∈ default ∅ bps)) as [Hb|Hb].
        -- exists k, c1. split; [done|]. right. exists text. by rewrite He.
        -- apply (IH (S k) c2); [lia|]. by eapply advances_exec.
      * exists k, c1. split; [done|]. right. exists text. by rewrite He.
    + apply (IH (S k) c1); [lia|]. by eapply advances_skip.
Qed.

(** What [cont] answers and stores for each way the loop can end. *)
Lemma cont_at_end p st idx l src c k c1 :
  states st !! p = Some (idx, l) ->
  Dict.get p (programs st) = Some src ->
  heap st !! l = Some c ->
  advances (breakpoints st !! p) (PyStr.splitlines src) idx c k c1 ->
  PyStr.splitlines src !! k = None ->
  cont p st
  = (RFinished p (visible_vars c1),
     store_result p l (LoopFinished k c1) (mark_running p st)).
Proof.
  intros Hs Hsrc Hh Ha Hl. rewrite (cont_eq _ _ _ _ _ Hs Hsrc). simpl.
  unfold heap_get. rewrite Hh. simpl.
  apply advances_run_loop in Ha as [_ ->]. by rewrite run_loop_past.
Qed.

Lemma cont_at_failure p st idx l src c k c1 text msg c2 :
  states st !! p = Some (idx, l) ->
  Dict.get p (programs st) = Some src ->
  heap st !! l = Some c ->
  advances (breakpoints st !! p) (PyStr.splitlines src) idx c k c1 ->
  PyStr.splitlines src !! k = Some text ->
  executable text = true ->
  exec_stmt (PyStr.strip text) c1 = ExecErr msg c2 ->
  cont p st
  = (RErrorOnLine (S k) msg,
     store_result p l (LoopErrored (S k) msg c2) (mark_running p st)).
Proof.
  intros Hs Hsrc Hh Ha Hl Hx He. rewrite (cont_eq _ _ _ _ _ Hs Hsrc). simpl.
  unfold heap_get. rewrite Hh. simpl.
  apply advances_run_loop in Ha as [_ ->].
  by rewrite (run_loop_at _ _ _ _ _ Hl), Hx, He.
Qed.

Lemma cont_at_breakpoint p st idx l src c k c1 text c2 :
  states st !! p = Some (idx, l) ->
  Dict.get p (programs st) = Some src ->
  heap st !! l = Some c ->
  advances (breakpoints st !! p) (PyStr.splitlines src) idx c k c1 ->
  PyStr.splitlines src !! k = Some text ->
  executable text = true ->
  exec_stmt (PyStr.strip text) c1 = ExecOk c2 ->
  (Z.of_nat k + 2)%Z ∈ default ∅ (breakpoints st !! p) ->
  let next := match PyStr.splitlines src !! S k with
              | Some t => PyStr.strip t
              | None => "end of program"
              end in
  cont p st
  = (RBreakpointAt (Z.of_nat k + 2) next,
     store_result p l (LoopPaused (S k) c2 next) (mark_running p st)).
Proof.
  intros Hs Hsrc Hh Ha Hl Hx He Hb. rewrite (cont_eq _ _ _ _ _ Hs Hsrc).
  simpl. unfold heap_get. rewrite Hh. simpl.
  apply advances_run_loop in Ha as [_ ->].
  rewrite (run_loop_at _ _ _ _ _ Hl), Hx, He, bool_decide_eq_true_2 by done.
  simpl. by replace (Z.of_nat (S k) + 1)%Z with (Z.of_nat k + 2)%Z by lia.
Qed.

(** The stores of [cont], read back field by field. *)
Lemma store_result_fields p l res st idx c :
  states st !! p = Some (idx, l) ->
  heap st !! l = Some c ->
  let st' := store_result p l res (mark_running p st) in
  states st' !! p = Some (loop_cursor idx res, l)
  /\ heap st' !! l = Some (loop_ctx res)
  /\ ~ is_running p st'
  /\ (is_paused p st' <-> exists k c' next, res = LoopPaused k c' next)
  /\ programs st' = programs st
  /\ debugging st' = debugging st
  /\ breakpoints st' = breakpoints st
  /\ contexts st' = contexts st.
Proof.
  intros Hs Hh st'. subst st'.
  destruct (store_result_frame p l res (mark_running p st))
    as (Hp & Hd & Hb & Hc & Hheap).
  destruct (store_result_markers p l res (mark_running p st)) as [Hr Hpa].
  split; [by apply store_result_states|].
  split; [|done].
  rewrite Hheap. simpl. apply list_lookup_insert_eq.
  by eapply lookup_lt_Some.
Qed.

(** ** Commands of an attached client *)

Lemma attached_command_resolved name args a p st :
  attached a p st ->
  attached_command name args a st =
  if decide (name = "start") then run p st
  else if decide (name = "continue") then
    if bool_decide (p ∈ paused st) then cont p st else (RNotPaused p, st)
  else if decide (name = "get_var") then get_var p args st
  else if decide (name = "set_var") then set_var p args st
  else (RUnknown name, st).
Proof.
  intros [Hs Hne]. unfold attached_command.
  unfold session_of in Hs. rewrite Hs.
  by destruct (decide (p = "")).
Qed.

(** C5. For a client attached to [p], [continue] answers with the
    state error unless [p] is paused, and changes nothing.  When [p] is
    paused, the loop is entered at the stored cursor on the stored
    context object: it comes to the end of the lines, to a statement
    that fails or to a statement followed by a breakpoint, and for each
    of the three the answer, the stored cursor, the context object and
    the status afterwards are those of [cont].  The answer and the
    state are those of [run_loop] from that cursor and context. *)
Theorem continue_needs_pause cmd args a p st :
  parse_command cmd = Some ("continue", args) ->
  attached a p st ->
  (~ is_paused p st -> process_command cmd a st = (RNotPaused p, st)) /\
  (is_paused p st ->
     forall idx l src,
       states st !! p = Some (idx, l) ->
       Dict.get p (programs st) = Some src ->
       let res := run_loop (breakpoints st !! p)
                    (drop idx (PyStr.splitlines src)) idx (heap_get l st) in
       process_command cmd a st
       = (loop_response p res, store_result p l res (mark_running p st))
       /\ (process_command cmd a st).1 <> RNotPaused p
       /\ forall c,
            heap st !! l = Some c ->
            let lines := PyStr.splitlines src in
            let bps := breakpoints st !! p in
            let r := (process_command cmd a st).1 in
            let st' := (process_command cmd a st).2 in
            (exists k c1,
               advances bps lines idx c k c1
               /\ (lines !! k = None
                   \/ exists text,
                        lines !! k = Some text /\ executable text = true
                        /\ match exec_stmt (PyStr.strip text) c1 with
                           | ExecOk _ => (Z.of_nat k + 2)%Z ∈ default ∅ bps
                           | ExecErr _ _ => True
                           end))
            /\ (forall k c1,
                  advances bps lines idx c k c1 ->
                  lines !! k = None ->
                  r = RFinished p (visible_vars c1)
                  /\ states st' !! p = Some (k, l)
                  /\ heap st' !! l = Some c1
                  /\ ~ is_paused p st' /\ ~ is_running p st')
            /\ (forall k c1 text msg c2,
                  advances bps lines idx c k c1 ->
                  lines !! k = Some text ->
                  executable text = true ->
                  exec_stmt (PyStr.strip text) c1 = ExecErr msg c2 ->
                  r = RErrorOnLine (S k) msg
                  /\ states st' !! p = Some (idx, l)
                  /\ heap st' !! l = Some c2
                  /\ ~ is_paused p st' /\ ~ is_running p st')
            /\ (forall k c1 text c2,
                  advances bps lines idx c k c1 ->
                  lines !! k = Some text ->
                  executable text = true ->
                  exec_stmt (PyStr.strip text) c1 = ExecOk c2 ->
                  (Z.of_nat k + 2)%Z ∈ default ∅ bps ->
                  r = RBreakpointAt (Z.of_nat k + 2)
                        match lines !! S k with
                        | Some next => PyStr.strip next
                        | None => "end of program"
                        end
                  /\ states st' !! p = Some (S k, l)
                  /\ heap st' !! l = Some c2
                  /\ is_paused p st' /\ ~ is_running p st')
            /\ session_of a st' = Some p
            /\ breakpoints st' = breakpoints st
            /\ contexts st' = contexts st).
Proof.
  intros Hp Ha.
  rewrite (process_command_parsed _ _ _ _ _ Hp).
  change (dispatch "continue" args a st)
    with (attached_command "continue" args a st).
  rewrite (attached_command_resolved _ _ _ _ _ Ha). simpl.
  unfold is_paused at 1 2. split.
  - intros Hn. by rewrite bool_decide_eq_false_2.
  - intros Hpaused idx l src Hs Hsrc. rewrite bool_decide_eq_true_2 by done.
    split; [by rewrite (cont_eq _ _ _ _ _ Hs Hsrc)|].
    split.
    { rewrite (cont_eq _ _ _ _ _ Hs Hsrc). simpl.
      by destruct (run_loop _ _ _ _). }
    intros c Hh.
    split; [by eapply (advances_ends _ _ _ _ _ idx c), advances_start|].
    split; [|split; [|split]].
    + intros k c1 Hadv Hl.
      rewrite (cont_at_end _ _ _ _ _ _ _ _ Hs Hsrc Hh Hadv Hl). simpl.
      destruct (store_result_fields p l (LoopFinished k c1) st idx c Hs Hh)
        as (Hst & Hheap & Hrun & Hpa & _).
      split; [done|]. split; [done|]. split; [done|]. split; [|done].
      rewrite Hpa. by intros (? & ? & ? & ?).
    + intros k c1 text msg c2 Hadv Hl Hx He.
      rewrite (cont_at_failure _ _ _ _ _ _ _ _ _ _ _ Hs Hsrc Hh Hadv Hl Hx He).
      simpl.
      destruct (store_result_fields p l (LoopErrored (S k) msg c2) st idx c
                  Hs Hh) as (Hst & Hheap & Hrun & Hpa & _).
      split; [done|]. split; [done|]. split; [done|]. split; [|done].
      rewrite Hpa. by intros (? & ? & ? & ?).
    + intros k c1 text c2 Hadv Hl Hx He Hb.
      rewrite (cont_at_breakpoint _ _ _ _ _ _ _ _ _ _ Hs Hsrc Hh Hadv Hl Hx
                 He Hb). simpl.
      set (next := match PyStr.splitlines src !! S k with
                   | Some t => PyStr.strip t
                   | None => "end of program"
                   end).
      destruct (store_result_fields p l (LoopPaused (S k) c2 next) st idx c
                  Hs Hh) as (Hst & Hheap & Hrun & Hpa & _).
      split; [done|]. split; [done|]. split; [done|]. split; [|done].
      rewrite Hpa. eauto.
    + rewrite (cont_eq _ _ _ _ _ Hs Hsrc). simpl.
      destruct (store_result_fields p l
                  (run_loop (breakpoints st !! p)
                     (drop idx (PyStr.splitlines src)) idx (heap_get l st))
                  st idx c Hs Hh) as (_ & _ & _ & _ & _ & Hd & Hb & Hc).
      unfold session_of. rewrite Hd. by destruct Ha.
Qed.

Lemma fresh_context_spec p st :
  let st0 := fresh_context p (mark_running p st) in
  states st0 !! p = Some (0, length (heap st))
  /\ contexts st0 !! p = Some (length (heap st))
  /\ heap st0 = (heap st ++ [[]])%list
  /\ heap_get (length (heap st)) st0 = []
  /\ programs st0 = programs st
  /\ breakpoints st0 = breakpoints st
  /\ debugging st0 = debugging st.
Proof.
  simpl. rewrite !lookup_insert_eq. split_and!; try done.
  unfold heap_get. simpl.
  by rewrite lookup_app_r, Nat.sub_diag by lia.
Qed.

Lemma run_eq p st src :
  Dict.get p (programs st) = Some src ->
  run p st =
  let res := run_loop (breakpoints st !! p) (PyStr.splitlines src) 0 [] in
  (loop_response p res,
   store_result p (length (heap st)) res
     (mark_running p (fresh_context p (mark_running p st)))).
Proof.
  intros Hsrc. unfold run.
  destruct (fresh_context_spec p st) as (Hs & _ & _ & Hh & Hp & Hb & _).
  erewrite cont_eq; [|exact Hs | by rewrite Hp].
  by rewrite Hb, Hh.
Qed.

(** C6. [start] from an attached client, whatever the status, the
    cursor and the context of the program were: the loop runs from
    cursor 0 on a new, empty context object; the answer, the stored
    cursor and the stored context are those of that loop; the context
    objects that existed before are not touched. *)
Theorem start_resets cmd args a p st src :
  parse_command cmd = Some ("start", args) ->
  attached a p st ->
  Dict.get p (programs st) = Some src ->
  let res := run_loop (breakpoints st !! p) (PyStr.splitlines src) 0 [] in
  let st' := (process_command cmd a st).2 in
  (process_command cmd a st).1 = loop_response p res
  /\ contexts st' !! p = Some (length (heap st))
  /\ states st' !! p = Some (loop_cursor 0 res, length (heap st))
  /\ heap st' = (heap st ++ [loop_ctx res])%list.
Proof.
  intros Hp Ha Hsrc.
  rewrite (process_command_parsed _ _ _ _ _ Hp).
  change (dispatch "start" args a st)
    with (attached_command "start" args a st).
  rewrite (attached_command_resolved _ _ _ _ _ Ha). simpl.
  rewrite (run_eq _ _ _ Hsrc). simpl.
  set (res := run_loop _ _ _ _).
  set (st0 := mark_running p (fresh_context p (mark_running p st))).
  destruct (store_result_frame p (length (heap st)) res st0)
    as (_ & _ & _ & Hc & Hh).
  split_and!; [done | | |].
  - rewrite Hc. subst st0. simpl. by rewrite lookup_insert_eq.
  - apply store_result_states. subst st0. simpl. by rewrite lookup_insert_eq.
  - rewrite Hh. subst st0. simpl.
    rewrite insert_app_r_alt by lia. by rewrite Nat.sub_diag.
Qed.



(** ** Releasing an attachment *)

Lemma release_idempotent p st : release p (release p st) = release p st.
Proof.
  unfold release, clear_markers, with_paused, with_executing, with_debugging.
  simpl. f_equal.
  - unfold Dict.del. rewrite list_filter_filter. apply list_filter_iff.
    intros kv. tauto.
  - apply leibniz_equiv. set_solver.
  - apply leibniz_equiv. set_solver.
Qed.

Lemma cleanup_fold_released a p (snapshot : Dict.t addr) st :
  (forall q, (q, a) ∈ snapshot -> q = p) ->
  fold_left (fun st pu => if decide (pu.2 = a) then release pu.1 st else st)
    snapshot (release p st) = release p st.
Proof.
  induction snapshot as [|[q u] snapshot IH]; intros Hq; simpl; [done|].
  destruct (decide (u = a)) as [->|Hne].
  - rewrite (Hq q) by apply list_elem_of_here.
    rewrite release_idempotent. apply IH.
    intros q' Hin. apply Hq. by apply list_elem_of_further.
  - apply IH. intros q' Hin. apply Hq. by apply list_elem_of_further.
Qed.

Lemma cleanup_fold_release a p (snapshot : Dict.t addr) st :
  (forall q, (q, a) ∈ snapshot -> q = p) ->
  (p, a) ∈ snapshot ->
  fold_left (fun st pu => if decide (pu.2 = a) then release pu.1 st else st)
    snapshot st = release p st.
Proof.
  induction snapshot as [|[q u] snapshot IH]; intros Hq Hin; simpl;
    [by apply elem_of_nil in Hin|].
  assert (forall q', (q', a) ∈ snapshot -> q' = p) as Hq'.
  { intros q' Hin'. apply Hq. by apply list_elem_of_further. }
  destruct (decide (u = a)) as [->|Hne].
  - rewrite (Hq q) by apply list_elem_of_here.
    by apply cleanup_fold_released.
  - apply elem_of_cons in Hin as [[= -> ->] | Hin]; [done|].
    by apply IH.
Qed.

(** With the attachment invariant, the cleanup after a disconnection
    and [detach] release the same, single attachment. *)
Lemma cleanup_release a p st :
  attach_invariant st -> attached a p st ->
  cleanup a st = release p st /\ detach a st = (RDetached p, release p st).
Proof.
  intros [Hone _] [Hs _]. unfold session_of in Hs. split.
  - apply cleanup_fold_release.
    + intros q Hq. apply lookup_session_Some in Hs.
      by apply (one_to_one_session _ _ _ _ Hone Hq).
    + by apply lookup_session_Some.
  - unfold detach. by rewrite Hs.
Qed.

Lemma release_spec a p st :
  attach_invariant st -> attached a p st ->
  session_of a (release p st) = None
  /\ ~ is_running p (release p st)
  /\ ~ is_paused p (release p st)
  /\ states (release p st) = states st
  /\ contexts (release p st) = contexts st
  /\ heap (release p st) = heap st
  /\ forall cmd b,
       parse_command cmd = Some ("attach", p) ->
       session_of b (release p st) = None ->
       (process_command cmd b (release p st)).1 = RAttached p.
Proof.
  intros [Hone Hknown] [Hs Hne]. unfold session_of in *.
  pose proof (lookup_session_Some _ _ _ Hs) as Hin.
  split_and!; try done.
  - simpl. apply lookup_session_None.
    rewrite list_elem_of_fmap. intros ([q b] & -> & Hq). simpl in Hq.
    apply dict_del_elem in Hq as [Hq Hqp]. apply Hqp.
    by apply (one_to_one_session _ _ _ _ Hone Hq).
  - unfold is_running. simpl. set_solver.
  - unfold is_paused. simpl. set_solver.
  - intros cmd b Hp Hb.
    rewrite (process_command_parsed _ _ _ _ _ Hp).
    change (dispatch "attach" p b (release p st))
      with (attach p b (release p st)).
    destruct (attach_free p b (release p st)) as (st' & -> & _); try done.
    + apply (Hknown _ _ Hin).
    + simpl. apply dict_mem_false, dict_del_keys.
Qed.

(** C8, amended. [detach], and the cleanup after a disconnection,
    remove the attachment of the client, clear the running and paused
    markers of its program and leave the stored cursor and the context
    objects as they are; afterwards [attach] to that program succeeds
    for every client that holds no attachment. *)
Theorem detach_releases catalog cmd args a p st :
  reachable catalog st ->
  attached a p st ->
  parse_command cmd = Some ("detach", args) ->
  (process_command cmd a st).1 = RDetached p /\
  forall st',
    st' = (process_command cmd a st).2 \/ st' = cleanup a st ->
    session_of a st' = None
    /\ ~ is_running p st'
    /\ ~ is_paused p st'
    /\ states st' = states st
    /\ contexts st' = contexts st
    /\ heap st' = heap st
    /\ forall cmd' b,
         parse_command cmd' = Some ("attach", p) ->
         session_of b st' = None ->
         (process_command cmd' b st').1 = RAttached p.
Proof.
  intros Hr Ha Hp. pose proof (reachable_invariant _ _ Hr) as Hinv.
  rewrite (process_command_parsed _ _ _ _ _ Hp).
  change (dispatch "detach" args a st) with (detach a st).
  destruct (cleanup_release _ _ _ Hinv Ha) as [-> ->]. simpl.
  split; [done|].
  intros st' [-> | ->]; by apply release_spec.
Qed.


(** ** A whole debugging session *)

Lemma breakpoint_hit_true bps idx :
  breakpoint_hit bps idx = true <-> (Z.of_nat idx + 1)%Z ∈ default ∅ bps.
Proof.
  destruct bps as [s|]; simpl.
  - apply bool_decide_eq_true.
  - split; [done | by intros ?%not_elem_of_empty].
Qed.

(** [sweep] is the loop, started again after each pause where it
    stopped. *)
Lemma sweep_unfold bps rest idx c :
  sweep bps rest idx c =
  match run_loop bps rest idx c with
  | LoopPaused idx' c' _ =>
      let '(ps, r) := sweep bps (drop (idx' - idx) rest) idx' c' in
      ((Z.of_nat idx' + 1)%Z :: ps, r)
  | r => ([], r)
  end.
Proof.
  revert idx c. induction rest as [|l rest IH]; intros idx c; simpl; [done|].
  destruct (PyStr.blank_or_comment (PyStr.strip l)).
  - rewrite IH. destruct (run_loop bps rest (S idx) c) eqn:E; try done.
    apply run_loop_paused in E as (Hb & _).
    by replace (idx0 - idx) with (S (idx0 - S idx)) by lia.
  - destruct (exec_stmt (PyStr.strip l) c) as [c1 | msg c1]; [|done].
    destruct (breakpoint_hit bps (S idx)).
    + by replace (S idx - idx) with 1 by lia.
    + rewrite IH. destruct (run_loop bps rest (S idx) c1) eqn:E; try done.
      apply run_loop_paused in E as (Hb & _).
      by replace (idx0 - idx) with (S (idx0 - S idx)) by lia.
Qed.

Lemma sweep_pauses bps rest idx c L :
  L ∈ (sweep bps rest idx c).1 ->
  (Z.of_nat idx + 2 <= L <= Z.of_nat (idx + length rest) + 1)%Z
  /\ L ∈ default ∅ bps.
Proof.
  revert idx c. induction rest as [|l rest IH]; intros idx c; simpl;
    [by intros ?%elem_of_nil|].
  destruct (PyStr.blank_or_comment (PyStr.strip l)).
  { intros [Hb Hin]%IH. split; [lia | done]. }
  destruct (exec_stmt (PyStr.strip l) c) as [c1 | msg c1];
    [|by intros ?%elem_of_nil].
  destruct (breakpoint_hit bps (S idx)) eqn:Hhit.
  - destruct (sweep bps rest (S idx) c1) as [ps r] eqn:E. simpl.
    intros [-> | Hin]%elem_of_cons.
    + split; [lia|]. by apply breakpoint_hit_true in Hhit.
    + specialize (IH (S idx) c1 ltac:(by rewrite E)) as [Hb Hs].
      split; [lia | done].
  - intros [Hb Hin]%IH. split; [lia | done].
Qed.

Lemma sweep_sorted bps rest idx c :
  StronglySorted Z.lt (sweep bps rest idx c).1.
Proof.
  revert idx c. induction rest as [|l rest IH]; intros idx c; simpl;
    [constructor|].
  destruct (PyStr.blank_or_comment (PyStr.strip l)); [apply IH|].
  destruct (exec_stmt (PyStr.strip l) c) as [c1 | msg c1]; [|constructor].
  destruct (breakpoint_hit bps (S idx)); [|apply IH].
  pose proof (IH (S idx) c1) as Hs.
  pose proof (fun L => sweep_pauses bps rest (S idx) c1 L) as Hb.
  destruct (sweep bps rest (S idx) c1) as [ps r]. simpl in *.
  constructor; [done|]. apply Forall_forall. intros L HL.
  specialize (Hb L HL). lia.
Qed.

Lemma sweep_ends bps rest idx c :
  (exists i c', (sweep bps rest idx c).2 = LoopFinished i c')
  \/ (exists i msg c', (sweep bps rest idx c).2 = LoopErrored i msg c').
Proof.
  revert idx c. induction rest as [|l rest IH]; intros idx c; simpl;
    [left; eauto|].
  destruct (PyStr.blank_or_comment (PyStr.strip l)); [apply IH|].
  destruct (exec_stmt (PyStr.strip l) c) as [c1 | msg c1];
    [|right; eauto].
  destruct (breakpoint_hit bps (S idx)); [|apply IH].
  specialize (IH (S idx) c1).
  by destruct (sweep bps rest (S idx) c1) as [ps r].
Qed.

(** When the session runs to the end, it has paused at every
    breakpoint that follows an executable line. *)
Lemma sweep_complete bps rest idx c i c' k text :
  (sweep bps rest idx c).2 = LoopFinished i c' ->
  rest !! k = Some text ->
  executable text = true ->
  (Z.of_nat (idx + k) + 2)%Z ∈ default ∅ bps ->
  (Z.of_nat (idx + k) + 2)%Z ∈ (sweep bps rest idx c).1.
Proof.
  revert idx c k. induction rest as [|l rest IH]; intros idx c k; simpl;
    [done|].
  intros Hfin Hk Hx Hbp.
  assert (forall c1, (sweep bps rest (S idx) c1).2 = LoopFinished i c' ->
            k <> 0 ->
            (Z.of_nat (idx + k) + 2)%Z ∈ (sweep bps rest (S idx) c1).1)
    as Hlater.
  { intros c1 Hfin1 Hk0. destruct k as [|k]; [done|]. simpl in Hk.
    replace (idx + S k) with (S idx + k) in * by lia.
    by eapply IH. }
  unfold executable in Hx.
  destruct (PyStr.blank_or_comment (PyStr.strip l)) eqn:Hblank.
  { apply Hlater; [done|]. intros ->. simpl in Hk.
    injection Hk as <-. by rewrite Hblank in Hx. }
  destruct (exec_stmt (PyStr.strip l) c) as [c1 | msg c1]; [|done].
  destruct (breakpoint_hit bps (S idx)) eqn:Hhit.
  - specialize (Hlater c1).
    destruct (sweep bps rest (S idx) c1) as [ps r]. simpl in *.
    destruct (decide (k = 0)) as [->|Hk0].
    + apply elem_of_cons. left. lia.
    + apply elem_of_cons. right. by apply Hlater.
  - apply Hlater; [done|]. intros ->.
    assert (breakpoint_hit bps (S idx) = true); [|congruence].
    apply breakpoint_hit_true.
    by replace (Z.of_nat (S idx) + 1)%Z with (Z.of_nat (idx + 0) + 2)%Z
      by lia.
Qed.


(** A pause at line [L] follows the execution of the statement on line
    [L - 1]: the session never pauses at line 1, nor at a line that
    follows a blank line or a comment. *)
Lemma sweep_pause_follows_statement bps rest idx c L :
  L ∈ (sweep bps rest idx c).1 ->
  exists k text,
    L = (Z.of_nat (idx + k) + 2)%Z
    /\ rest !! k = Some text
    /\ executable text = true.
Proof.
  revert idx c. induction rest as [|l rest IH]; intros idx c; simpl;
    [by intros ?%elem_of_nil|].
  assert (forall c1, L ∈ (sweep bps rest (S idx) c1).1 ->
            exists k text, L = (Z.of_nat (idx + k) + 2)%Z
              /\ (l :: rest) !! k = Some text /\ executable text = true)
    as Hlater.
  { intros c1 (k & text & -> & Hk & Hx)%IH. exists (S k), text.
    split; [f_equal; lia | done]. }
  destruct (PyStr.blank_or_comment (PyStr.strip l)) eqn:Hblank;
    [apply Hlater|].
  destruct (exec_stmt (PyStr.strip l) c) as [c1 | msg c1];
    [|by intros ?%elem_of_nil].
  destruct (breakpoint_hit bps (S idx)); [|apply Hlater].
  specialize (Hlater c1).
  destruct (sweep bps rest (S idx) c1) as [ps r]. simpl in *.
  intros [-> | Hin]%elem_of_cons; [|by apply Hlater].
  exists 0, l. split; [lia|]. split; [done|].
  unfold executable. by rewrite Hblank.
Qed.

Lemma continue_paused cmd args a p st idx l src :
  parse_command cmd = Some ("continue", args) ->
  attached a p st ->
  is_paused p st ->
  states st !! p = Some (idx, l) ->
  Dict.get p (programs st) = Some src ->
  process_command cmd a st =
  let res := run_loop (breakpoints st !! p) (drop idx (PyStr.splitlines src))
               idx (heap_get l st) in
  (loop_response p res, store_result p l res (mark_running p st)).
Proof.
  intros Hp Ha Hpaused Hs Hsrc.
  rewrite (process_command_parsed _ _ _ _ _ Hp).
  change (dispatch "continue" args a st)
    with (attached_command "continue" args a st).
  rewrite (attached_command_resolved _ _ _ _ _ Ha). simpl.
  rewrite bool_decide_eq_true_2 by done.
  by rewrite (cont_eq _ _ _ _ _ Hs Hsrc).
Qed.

Lemma store_result_stopped a p src bps idx l c res st :
  stopped_at a p src bps idx l c st ->
  stopped_at a p src bps (loop_cursor idx res) l (loop_ctx res)
    (store_result p l res (mark_running p st)).
Proof.
  intros ([Ha Hne] & Hsrc & Hb & Hs & Hh).
  destruct (store_result_frame p l res (mark_running p st))
    as (Hp' & Hd' & Hb' & _ & Hh').
  unfold stopped_at, attached, session_of in *.
  rewrite Hp', Hd', Hb', Hh'.
  split; [done|]. split; [done|]. split; [done|]. split.
  - by apply store_result_states.
  - simpl. apply list_lookup_insert_eq. by eapply lookup_lt_Some.
Qed.

Lemma continue_while_paused_done fuel a r st :
  (forall line up, r <> RBreakpointAt line up) ->
  continue_while_paused fuel a r st = ([], r, st).
Proof. intros Hr. destruct fuel, r; try done; by destruct (Hr line upcoming). Qed.

Lemma continue_while_paused_sweep a p src bps fuel :
  forall st idx l c up,
    stopped_at a p src bps idx l c st ->
    is_paused p st ->
    length (PyStr.splitlines src) - idx < fuel ->
    (continue_while_paused fuel a (RBreakpointAt (Z.of_nat idx + 1) up) st).1
    = let '(ps, r) := sweep bps (drop idx (PyStr.splitlines src)) idx c in
      ((Z.of_nat idx + 1)%Z :: ps, loop_response p r).
Proof.
  induction fuel as [|fuel IH]; intros st idx l c up Hst Hpaused Hfuel;
    [lia|].
  pose proof Hst as (Ha & Hsrc & Hb & Hs & Hh).
  simpl.
  rewrite (continue_paused "continue" "" a p st idx l src)
    by (done || reflexivity).
  assert (heap_get l st = c) as -> by (unfold heap_get; by rewrite Hh).
  rewrite Hb, sweep_unfold. simpl.
  pose proof (store_result_stopped a p src bps idx l c
    (run_loop bps (drop idx (PyStr.splitlines src)) idx c) st Hst) as Hst'.
  pose proof (store_result_markers p l
    (run_loop bps (drop idx (PyStr.splitlines src)) idx c)
    (mark_running p st)) as [_ Hpaused'].
  destruct (run_loop bps (drop idx (PyStr.splitlines src)) idx c)
    as [idx' c' up' | idx' c' | idx' msg c'] eqn:Hloop; simpl in *;
    [|by rewrite continue_while_paused_done..].
  apply run_loop_paused in Hloop as (Hbound & _).
  rewrite length_drop in Hbound. rewrite drop_drop.
  replace (idx + (idx' - idx)) with idx' by lia.
  specialize (IH _ idx' l c' up' Hst' ltac:(apply Hpaused'; eauto)
    ltac:(lia)).
  destruct (continue_while_paused fuel a _ _) as [[ps rf] stf].
  destruct (sweep bps (drop idx' (PyStr.splitlines src)) idx' c')
    as [ps' r'].
  simpl in *. by injection IH as -> ->.
Qed.

Lemma debug_session_sweep a p src st :
  attached a p st ->
  Dict.get p (programs st) = Some src ->
  (debug_session (length (PyStr.splitlines src)) a st).1
  = let '(ps, r) := sweep (breakpoints st !! p) (PyStr.splitlines src) 0 []
    in (ps, loop_response p r).
Proof.
  intros Ha Hsrc. unfold debug_session.
  rewrite (process_command_parsed "start" "start" "" a st) by reflexivity.
  change (dispatch "start" "" a st) with (attached_command "start" "" a st).
  rewrite (attached_command_resolved _ _ _ _ _ Ha). simpl.
  rewrite (run_eq _ _ _ Hsrc). simpl.
  rewrite sweep_unfold.
  set (bps := breakpoints st !! p).
  set (st0 := fresh_context p (mark_running p st)).
  assert (stopped_at a p src bps 0 (length (heap st)) [] st0) as Hst0.
  { destruct (fresh_context_spec p st) as (Hs & _ & Hh & _ & Hp & Hb & Hd).
    destruct Ha as [Ha Hne].
    unfold stopped_at, attached, session_of in *.
    fold st0 in Hs, Hh, Hp, Hb, Hd.
    rewrite Hp, Hb, Hd, Hh.
    split; [done|]. split; [done|]. split; [done|]. split; [done|].
    rewrite lookup_app_r by lia. by rewrite Nat.sub_diag. }
  pose proof (store_result_stopped a p src bps 0 (length (heap st)) []
    (run_loop bps (PyStr.splitlines src) 0 []) st0 Hst0) as Hst'.
  pose proof (store_result_markers p (length (heap st))
    (run_loop bps (PyStr.splitlines src) 0 [])
    (mark_running p st0)) as [_ Hpaused'].
  destruct (run_loop bps (PyStr.splitlines src) 0 [])
    as [idx' c' up' | idx' c' | idx' msg c'] eqn:Hloop; simpl in *;
    [|by rewrite continue_while_paused_done..].
  apply run_loop_paused in Hloop as (Hbound & _).
  rewrite Nat.sub_0_r.
  erewrite continue_while_paused_sweep; [| exact Hst' | | lia].
  - by destruct (sweep bps (drop idx' (PyStr.splitlines src)) idx' c').
  - apply Hpaused'; eauto.
Qed.

(** C1, amended. A session is [start] followed by [continue] for as
    long as the server answers with a breakpoint.  It ends, finished or
    with an error, after at most as many [continue]s as the program has
    lines.  It pauses only at registered breakpoint lines, in strictly
    increasing order, hence at none twice; and when it finishes, it has
    paused at every registered breakpoint line whose preceding line is
    an executable statement. *)
Theorem breakpoints_visited_in_order a p src st :
  attached a p st ->
  Dict.get p (programs st) = Some src ->
  let lines := PyStr.splitlines src in
  let registered := default ∅ (breakpoints st !! p) in
  let pauses := (debug_session (length lines) a st).1.1 in
  let answer := (debug_session (length lines) a st).1.2 in
  StronglySorted Z.lt pauses
  /\ (forall L, L ∈ pauses ->
        L ∈ registered /\ (2 <= L <= Z.of_nat (length lines) + 1)%Z)
  /\ ((exists vars, answer = RFinished p vars)
      \/ (exists line msg, answer = RErrorOnLine line msg))
  /\ ((exists vars, answer = RFinished p vars) ->
      forall k text,
        lines !! k = Some text ->
        executable text = true ->
        (Z.of_nat k + 2)%Z ∈ registered ->
        (Z.of_nat k + 2)%Z ∈ pauses).
Proof.
  intros Ha Hsrc. simpl.
  rewrite (debug_session_sweep _ _ _ _ Ha Hsrc).
  set (bps := breakpoints st !! p). set (lines := PyStr.splitlines src).
  pose proof (sweep_sorted bps lines 0 []) as Hsorted.
  pose proof (fun L => sweep_pauses bps lines 0 [] L) as Hpauses.
  pose proof (sweep_ends bps lines 0 []) as Hends.
  pose proof (fun i c' k text => sweep_complete bps lines 0 [] i c' k text)
    as Hcomplete.
  destruct (sweep bps lines 0 []) as [ps r]. simpl in *.
  split_and!; [done | | |].
  - intros L HL. destruct (Hpauses L HL) as [Hb Hr]. split; [done | lia].
  - destruct Hends as [(i & c' & ->) | (i & msg & c' & ->)]; simpl; eauto.
  - intros [vars Hfin] k text Hk Hx Hreg.
    destruct Hends as [(i & c' & ->) | (i & msg & c' & ->)]; [|done].
    by eapply Hcomplete.
Qed.


End Claims.

(** * Further properties of the server and the client *)

Section More.
Context `{!PyRuntime}.
Implicit Types (st : Server) (a : addr) (p program : string).

(** ** The stores after [cont] and [run] *)

Lemma run_loop_finished bps rest idx c idx' c' :
  run_loop bps rest idx c = LoopFinished idx' c' ->
  idx' = idx + length rest.
Proof.
  revert idx c. induction rest as [|l rest IH]; intros idx c; simpl.
  - intros [= <- <-]. lia.
  - destruct (PyStr.blank_or_comment (PyStr.strip l)).
    + intros ->%IH. lia.
    + destruct (exec_stmt (PyStr.strip l) c) as [c1 | msg c1]; [|done].
      destruct (breakpoint_hit bps (S idx)); [done|].
      intros ->%IH. lia.
Qed.

Lemma loop_cursor_bound bps rest idx c :
  idx <= loop_cursor idx (run_loop bps rest idx c) <= idx + length rest.
Proof.
  destruct (run_loop bps rest idx c) as [i c' up | i c' | i msg c'] eqn:E;
    simpl.
  - apply run_loop_paused in E. lia.
  - apply run_loop_finished in E. lia.
  - lia.
Qed.

Lemma store_result_executing p l res st :
  executing (store_result p l res st) = executing st ∖ {[p]}.
Proof. by destruct res. Qed.

Lemma store_result_paused p l res st :
  paused (store_result p l res st) =
  match res with
  | LoopPaused _ _ _ => {[p]} ∪ paused st
  | _ => paused st ∖ {[p]}
  end.
Proof. by destruct res. Qed.

Lemma store_result_states_other p q l res st :
  p <> q ->
  states (store_result p l res st) !! q = states st !! q.
Proof. intros Hne. destruct res; simpl; by rewrite ?lookup_insert_ne. Qed.

(** The stores after [cont], field by field. *)
Lemma cont_fields p st idx l src :
  states st !! p = Some (idx, l) ->
  Dict.get p (programs st) = Some src ->
  let res := run_loop (breakpoints st !! p) (drop idx (PyStr.splitlines src))
               idx (heap_get l st) in
  let st' := (cont p st).2 in
  (cont p st).1 = loop_response p res
  /\ programs st' = programs st
  /\ debugging st' = debugging st
  /\ breakpoints st' = breakpoints st
  /\ contexts st' = contexts st
  /\ heap st' = <[l := loop_ctx res]> (heap st)
  /\ executing st' = ({[p]} ∪ executing st) ∖ {[p]}
  /\ paused st' = match res with
                  | LoopPaused _ _ _ => {[p]} ∪ (paused st ∖ {[p]})
                  | _ => (paused st ∖ {[p]}) ∖ {[p]}
                  end
  /\ states st' !! p = Some (loop_cursor idx res, l)
  /\ forall q, p <> q -> states st' !! q = states st !! q.
Proof.
  intros Hs Hsrc. simpl. rewrite (cont_eq _ _ _ _ _ Hs Hsrc). simpl.
  set (res := run_loop _ _ _ _).
  destruct (store_result_frame p l res (mark_running p st))
    as (-> & -> & -> & -> & ->).
  rewrite store_result_executing, store_result_paused.
  split_and!; try done.
  - by apply store_result_states.
  - intros q Hq. by rewrite store_result_states_other.
Qed.

Lemma cont_consistent p a st src :
  attach_invariant st ->
  store_consistent st ->
  (p, a) ∈ debugging st ->
  Dict.get p (programs st) = Some src ->
  executing st ⊆ {[p]} ->
  (forall q, q ∈ paused st -> q <> p -> Dict.mem q (debugging st) = true) ->
  consistent (cont p st).2.
Proof.
  intros [Hone Hknown] (Hattached & Halias & Hsep & Hcur & Hbp) Hin Hsrc
    Hexec Hpaused.
  destruct (Hattached _ _ Hin) as [[idx l] Hs].
  destruct (cont_fields _ _ _ _ _ Hs Hsrc)
    as (_ & Hp' & Hd' & Hb' & Hc' & Hh' & He' & Hpa' & Hsp' & Hsq').
  set (res := run_loop _ _ _ _) in *. set (st' := (cont p st).2) in *.
  assert (forall q i l', states st' !! q = Some (i, l') ->
            (q = p /\ i = loop_cursor idx res /\ l' = l)
            \/ (q <> p /\ states st !! q = Some (i, l'))) as Hcases.
  { intros q i l' Hq. destruct (decide (p = q)) as [<-|Hne].
    - left. rewrite Hsp' in Hq. by injection Hq as <- <-.
    - right. rewrite Hsq' in Hq by done. by split; [congruence|]. }
  split; [split|split; [split|split; [|split; [|split; [|split]]]]].
  - unfold one_to_one. by rewrite Hd'.
  - intros q b. rewrite Hd', Hp'. apply Hknown.
  - rewrite He'. apply leibniz_equiv. set_solver.
  - intros q. rewrite Hpa', Hd'. intros Hq.
    destruct (decide (q = p)) as [->|Hne].
    + apply dict_mem_attached. by exists a.
    + apply Hpaused; [|done]. destruct res; set_solver.
  - intros q b. rewrite Hd'. intros Hq.
    destruct (decide (p = q)) as [<-|Hne]; [by rewrite Hsp'|].
    rewrite Hsq' by done. by eapply Hattached.
  - intros q i l' Hq. rewrite Hc', Hh', length_insert.
    destruct (Hcases _ _ _ Hq) as [(-> & -> & ->) | [_ Hq']];
      by eapply Halias.
  - intros q r i j l' Hq Hr.
    destruct (Hcases _ _ _ Hq) as [(? & ? & ?) | [Hqp Hq']],
      (Hcases _ _ _ Hr) as [(? & ? & ?) | [Hrp Hr']]; subst;
      try done; by eapply Hsep.
  - intros q i l' src' Hq. rewrite Hp'. intros Hsrc'.
    destruct (Hcases _ _ _ Hq) as [(-> & -> & ->) | [_ Hq']];
      [|by eapply Hcur].
    assert (src' = src) as -> by congruence.
    pose proof (Hcur _ _ _ _ Hs Hsrc) as Hidx.
    pose proof (loop_cursor_bound (breakpoints st !! p)
      (drop idx (PyStr.splitlines src)) idx (heap_get l st)) as Hb.
    rewrite length_drop in Hb. fold res in Hb. lia.
  - intros q s. rewrite Hb'. unfold known. rewrite Hp'. apply Hbp.
Qed.

Lemma fresh_context_store_consistent p st :
  store_consistent st -> store_consistent (fresh_context p st).
Proof.
  intros (Hattached & Halias & Hsep & Hcur & Hbp).
  assert (forall q i l, states (fresh_context p st) !! q = Some (i, l) ->
            (q = p /\ i = 0 /\ l = length (heap st))
            \/ (q <> p /\ states st !! q = Some (i, l))) as Hcases.
  { intros q i l. simpl. destruct (decide (p = q)) as [<-|Hne].
    - rewrite lookup_insert_eq. intros [= <- <-]. by left.
    - rewrite lookup_insert_ne by done. right. by split; [congruence|]. }
  split; [|split; [|split; [|split]]].
  - intros q b Hq. simpl in *. destruct (decide (p = q)) as [<-|Hne].
    + by rewrite lookup_insert_eq.
    + rewrite lookup_insert_ne by done. by eapply Hattached.
  - intros q i l Hq. simpl. rewrite length_app. simpl.
    destruct (Hcases _ _ _ Hq) as [(-> & -> & ->) | [Hne Hq']].
    + rewrite lookup_insert_eq. split; [done | lia].
    + rewrite lookup_insert_ne by done.
      destruct (Halias _ _ _ Hq'). split; [done | lia].
  - intros q r i j l Hq Hr.
    destruct (Hcases _ _ _ Hq) as [(? & ? & ?) | [Hqp Hq']],
      (Hcases _ _ _ Hr) as [(? & ? & ?) | [Hrp Hr']]; subst; try done.
    + destruct (Halias _ _ _ Hr'). lia.
    + destruct (Halias _ _ _ Hq'). lia.
    + by eapply Hsep.
  - intros q i l src Hq Hsrc.
    destruct (Hcases _ _ _ Hq) as [(-> & -> & ->) | [Hne Hq']]; [lia|].
    by eapply Hcur.
  - apply Hbp.
Qed.

Lemma run_consistent p a st :
  consistent st -> (p, a) ∈ debugging st -> consistent (run p st).2.
Proof.
  intros ([Hone Hknown] & [Hexec Hpaused] & Hstore) Hin.
  destruct (Hknown _ _ Hin) as [_ Hk].
  destruct (Dict.get p (programs st)) as [src|] eqn:Hsrc;
    [|unfold Dict.mem in Hk; by rewrite Hsrc in Hk].
  unfold run. eapply (cont_consistent p a _ src).
  - by split.
  - apply fresh_context_store_consistent. exact Hstore.
  - exact Hin.
  - exact Hsrc.
  - simpl. rewrite Hexec. set_solver.
  - simpl. intros q Hq Hne. apply Hpaused. set_solver.
Qed.

Lemma dict_set_keys {V} k (v : V) (d : Dict.t V) q :
  q ∈ d.*1 -> q ∈ (Dict.set k v d).*1.
Proof.
  induction d as [|[k' v'] d IH]; simpl; [by intros ?%elem_of_nil|].
  intros [-> | Hq]%elem_of_cons.
  - destruct (decide (k' = k)) as [->|]; apply list_elem_of_here.
  - destruct (decide (k' = k)); simpl.
    + by apply list_elem_of_further.
    + apply list_elem_of_further. by apply IH.
Qed.

Lemma attach_free_state args a st :
  args <> "" -> known args st -> Dict.mem args (debugging st) = false ->
  lookup_session a (debugging st) = None ->
  attach args a st =
  (RAttached args,
   let st1 := with_debugging (Dict.set args a (debugging st)) st in
   match states st !! args with
   | Some _ => st1
   | None => fresh_context args st1
   end).
Proof.
  intros Hne Hk Hd Hs. unfold attach. unfold known in Hk.
  by rewrite bool_decide_eq_false_2, Hk, Hd, Hs.
Qed.

Lemma attach_consistent args a st :
  consistent st -> consistent (attach args a st).2.
Proof.
  intros (Hinv & [Hexec Hpaused] & Hstore).
  pose proof (attach_preserves args a st Hinv) as Hinv'.
  destruct (attach_cases args a st)
    as [E | [E | [[p E] | (Hne & Hk & Hp & Ha & _)]]];
    try (rewrite E; by split_and!).
  pose proof (attach_free_state args a st Hne Hk
    (proj2 (dict_mem_false _ _) Hp)
    (proj2 (lookup_session_None _ _) Ha)) as E.
  rewrite E in Hinv' |- *. clear E. simpl in *.
  assert (forall q b, (q, b) ∈ Dict.set args a (debugging st) ->
            q = args \/ (q, b) ∈ debugging st) as Hnew.
  { intros q b. rewrite dict_set_fresh by done.
    intros [Hq | [= -> ->]%list_elem_of_singleton]%elem_of_app; auto. }
  split; [done|]. split.
  - destruct (states st !! args); simpl; (split; [done|]);
      intros q Hq; apply dict_mem_true, dict_set_keys, dict_mem_true;
      by apply Hpaused.
  - destruct Hstore as (Hattached & Halias & Hsep & Hcur & Hbp).
    destruct (states st !! args) as [[i l]|] eqn:Hs.
    + split; [|done]. intros q b Hq. simpl in *.
      apply Hnew in Hq as [-> | Hq]; [by rewrite Hs|].
      by eapply Hattached.
    + destruct (fresh_context_store_consistent args st)
        as (_ & Halias' & Hsep' & Hcur' & Hbp'); [done|].
      split; [|done]. intros q b Hq. simpl in *.
      destruct (decide (args = q)) as [<-|Hneq];
        [by rewrite lookup_insert_eq|].
      rewrite lookup_insert_ne by done.
      apply Hnew in Hq as [-> | Hq]; [done|]. by eapply Hattached.
Qed.

Lemma release_consistent p st : consistent st -> consistent (release p st).
Proof.
  intros (Hinv & [Hexec Hpaused] & Hstore).
  split; [by apply release_preserves|]. split.
  - split; simpl.
    + rewrite Hexec. apply leibniz_equiv. set_solver.
    + intros q [Hq Hne]%elem_of_difference.
      apply dict_mem_true. specialize (Hpaused _ Hq).
      apply dict_mem_attached in Hpaused as [b Hb].
      change q with (fst (q, b)). apply list_elem_of_fmap_2.
      apply dict_del_elem. split; [done | set_solver].
  - destruct Hstore as (Hattached & Hrest). split; [|done].
    intros q b [Hq _]%dict_del_elem. by eapply Hattached.
Qed.

Lemma cleanup_consistent a st : consistent st -> consistent (cleanup a st).
Proof.
  unfold cleanup. generalize (debugging st) as snapshot.
  intros snapshot. revert st.
  induction snapshot as [|[p u] snapshot IH]; intros st Hc; simpl; [done|].
  apply IH. case_decide; [by apply release_consistent | done].
Qed.

Lemma detach_consistent a st : consistent st -> consistent (detach a st).2.
Proof.
  intros Hc. unfold detach.
  destruct (lookup_session a (debugging st)); [|done].
  by apply release_consistent.
Qed.

Lemma heap_set_consistent l c st :
  consistent st -> consistent (heap_set l c st).
Proof.
  intros (Hinv & Hmarkers & Hattached & Halias & Hrest).
  split; [done|]. split; [done|]. split; [done|]. split; [|done].
  intros p idx l' Hs. simpl. rewrite length_insert. by eapply Halias.
Qed.

Lemma set_var_consistent p args st :
  consistent st -> consistent (set_var p args st).2.
Proof.
  intros Hc. unfold set_var.
  repeat case_match; try done. by apply heap_set_consistent.
Qed.

Lemma with_breakpoints_consistent b p st :
  consistent st -> known p st ->
  (forall q, q <> p -> b !! q = breakpoints st !! q) ->
  consistent (with_breakpoints b st).
Proof.
  intros (Hinv & Hmarkers & Hattached & Halias & Hsep & Hcur & Hbp) Hk Hb.
  split; [done|]. split; [done|].
  split; [done|]. split; [done|]. split; [done|]. split; [done|].
  intros q s. simpl. destruct (decide (q = p)) as [->|Hne]; [done|].
  rewrite Hb by done. apply Hbp.
Qed.

Lemma add_breakpoint_consistent args st :
  consistent st -> consistent (add_breakpoint args st).2.
Proof.
  intros Hc. unfold add_breakpoint.
  destruct (PyStr.split args) as [|p [|line [|? ?]]]; try done.
  destruct (Dict.mem p (programs st)) eqn:Hk; [|done]. simpl.
  destruct (busy p st); [done|].
  assert (consistent (setdefault_breakpoints p st)) as Hc'.
  { unfold setdefault_breakpoints.
    destruct (breakpoints st !! p); [done|].
    apply (with_breakpoints_consistent _ p); [done | done |].
    intros q Hq. by rewrite lookup_insert_ne. }
  destruct (py_int line); [|done]. simpl.
  apply (with_breakpoints_consistent _ p); [done | |].
  - unfold known, setdefault_breakpoints.
    by destruct (breakpoints st !! p).
  - intros q Hq. by rewrite lookup_alter_ne.
Qed.

Lemma rmv_breakpoint_consistent args st :
  consistent st -> consistent (rmv_breakpoint args st).2.
Proof.
  intros Hc. unfold rmv_breakpoint.
  destruct (PyStr.split args) as [|p [|line [|? ?]]]; try done.
  destruct (Dict.mem p (programs st)) eqn:Hk; [|done]. simpl.
  destruct (busy p st); [done|].
  assert (consistent (setdefault_breakpoints p st)) as Hc'.
  { unfold setdefault_breakpoints.
    destruct (breakpoints st !! p); [done|].
    apply (with_breakpoints_consistent _ p); [done | done |].
    intros q Hq. by rewrite lookup_insert_ne. }
  destruct (py_int line); [|done]. simpl.
  apply (with_breakpoints_consistent _ p); [done | |].
  - unfold known, setdefault_breakpoints.
    by destruct (breakpoints st !! p).
  - intros q Hq. by rewrite lookup_alter_ne.
Qed.

Lemma attached_command_consistent name args a st :
  consistent st -> consistent (attached_command name args a st).2.
Proof.
  intros Hc. unfold attached_command.
  destruct (lookup_session a (debugging st)) as [p|] eqn:Hs; [|done].
  apply lookup_session_Some in Hs.
  repeat case_decide; try done.
  - by apply (run_consistent p a).
  - case_bool_decide; [|done].
    destruct Hc as ([Hone Hknown] & [Hexec Hpaused] & Hstore).
    destruct (Hknown _ _ Hs) as [_ Hk].
    destruct (Dict.get p (programs st)) as [src|] eqn:Hsrc;
      [|unfold Dict.mem in Hk; by rewrite Hsrc in Hk].
    apply (cont_consistent p a st src); try done.
    + rewrite Hexec. set_solver.
    + intros q Hq _. by apply Hpaused.
  - unfold get_var. by repeat case_match.
  - by apply set_var_consistent.
Qed.

Lemma dispatch_consistent name args a st :
  consistent st -> consistent (dispatch name args a st).2.
Proof.
  intros Hc. unfold dispatch. repeat case_decide; try done.
  - unfold list_breakpoints. by case_match.
  - by apply add_breakpoint_consistent.
  - by apply rmv_breakpoint_consistent.
  - by apply attach_consistent.
  - by apply detach_consistent.
  - by apply attached_command_consistent.
Qed.

Lemma process_command_consistent cmd a st :
  consistent st -> consistent (process_command cmd a st).2.
Proof.
  intros Hc. unfold process_command.
  destruct (parse_command cmd) as [[name args]|]; [|done].
  by apply dispatch_consistent.
Qed.

Lemma init_consistent catalog : consistent (init catalog).
Proof.
  split; [|split].
  - split; [split; simpl; apply NoDup_nil_2|].
    intros p a Hin. simpl in Hin. by apply elem_of_nil in Hin.
  - split; [done|]. intros p Hp. simpl in Hp. set_solver.
  - split; [|split; [|split; [|split]]]; simpl.
    + intros p a Hin. by apply elem_of_nil in Hin.
    + intros p idx l Hs. by rewrite lookup_empty in Hs.
    + intros p q i j l Hs. by rewrite lookup_empty in Hs.
    + intros p idx l src Hs. by rewrite lookup_empty in Hs.
    + intros p s Hs. by rewrite lookup_empty in Hs.
Qed.

(** Every reachable state is consistent. *)
Lemma reachable_consistent catalog st :
  reachable catalog st -> consistent st.
Proof.
  unfold reachable. intros Hr.
  apply rtc_ind_r with (x := init catalog) (P := consistent) in Hr;
    [done | apply init_consistent |].
  intros y z _ [cmd a | a] Hy;
    [by apply process_command_consistent | by apply cleanup_consistent].
Qed.

(** ** Invariants of the reachable states *)

Lemma attached_in a p st : attached a p st -> (p, a) ∈ debugging st.
Proof. intros [Hs _]. by apply lookup_session_Some. Qed.

Lemma in_attached a p st :
  attach_invariant st -> (p, a) ∈ debugging st -> attached a p st.
Proof.
  intros [[_ Hv] Hknown] Hin. split.
  - by apply lookup_session_unique.
  - by destruct (Hknown _ _ Hin).
Qed.

Lemma known_source p st :
  known p st -> exists src, Dict.get p (programs st) = Some src.
Proof.
  unfold known, Dict.mem. destruct (Dict.get p (programs st)); eauto; done.
Qed.

(** X1. Between two commands no program is marked as executing, and
    every paused program has a client attached to it: a pause never
    outlives its attachment. *)
Theorem paused_programs_are_attached catalog st :
  reachable catalog st ->
  (forall p, ~ is_running p st)
  /\ (forall p, is_paused p st -> exists a, attached a p st).
Proof.
  intros Hr.
  destruct (reachable_consistent _ _ Hr) as (Hinv & [Hexec Hpaused] & _).
  split.
  - intros p. unfold is_running. rewrite Hexec. apply not_elem_of_empty.
  - intros p Hp. apply Hpaused in Hp.
    apply dict_mem_attached in Hp as [a Ha].
    exists a. by apply in_attached.
Qed.

(** X2. In every reachable state an attached program has an execution
    state; for a program with an execution state, [self.contexts] and
    [self.states] refer to the same context object, which exists; and no
    two programs share a context object. *)
Theorem contexts_shared_not_mixed catalog st :
  reachable catalog st ->
  (forall a p, attached a p st -> is_Some (states st !! p))
  /\ (forall p idx l, states st !! p = Some (idx, l) ->
        contexts st !! p = Some l
        /\ is_Some (heap st !! l)
        /\ forall q j, states st !! q = Some (j, l) -> q = p).
Proof.
  intros Hr.
  destruct (reachable_consistent _ _ Hr)
    as (_ & _ & Hattached & Halias & Hsep & _).
  split.
  - intros a p Ha. apply attached_in in Ha. by eapply Hattached.
  - intros p idx l Hs. destruct (Halias _ _ _ Hs) as [Hc Hl].
    split; [done|]. split; [by apply lookup_lt_is_Some|].
    intros q j Hq. by eapply Hsep.
Qed.

(** X3. In every reachable state the stored cursor of a program is at
    most the number of lines of its source. *)
Theorem cursor_within_program catalog st p idx l src :
  reachable catalog st ->
  states st !! p = Some (idx, l) ->
  Dict.get p (programs st) = Some src ->
  idx <= length (PyStr.splitlines src).
Proof.
  intros Hr Hs Hsrc.
  destruct (reachable_consistent _ _ Hr) as (_ & _ & _ & _ & _ & Hcur & _).
  by eapply Hcur.
Qed.

(** X4. In every reachable state only programs of the catalog have a
    breakpoint entry, so [list_breakpoints] answers NotFound for every
    name that is not in the catalog, and changes nothing. *)
Theorem list_breakpoints_unknown_program catalog st cmd p a :
  reachable catalog st ->
  parse_command cmd = Some ("list_breakpoints", p) ->
  ~ known p st ->
  breakpoints st !! p = None
  /\ process_command cmd a st = (RNotFound p, st).
Proof.
  intros Hr Hp Hk.
  destruct (reachable_consistent _ _ Hr) as (_ & _ & _ & _ & _ & _ & Hbp).
  assert (breakpoints st !! p = None) as Hnone.
  { destruct (breakpoints st !! p) as [s|] eqn:E; [|done].
    destruct Hk. by eapply Hbp. }
  split; [done|].
  rewrite (process_command_parsed _ _ _ _ _ Hp).
  change (dispatch "list_breakpoints" p a st) with (list_breakpoints p st).
  by apply list_breakpoints_none.
Qed.

(** ** The answers of the dispatcher *)

Lemma loop_response_external p res : ~ internal_answer (loop_response p res).
Proof. destruct res; simpl; tauto. Qed.

Lemma attached_command_external name args a st :
  consistent st ->
  ~ internal_answer (attached_command name args a st).1.
Proof.
  intros Hc. unfold attached_command.
  destruct (lookup_session a (debugging st)) as [p|] eqn:Hs;
    [|simpl; tauto].
  apply lookup_session_Some in Hs.
  destruct Hc as ([_ Hknown] & _ & Hattached & _).
  destruct (Hknown _ _ Hs) as [_ Hk].
  apply known_source in Hk as [src Hsrc].
  destruct (Hattached _ _ Hs) as [[idx l] Hst].
  repeat case_decide; try (simpl; tauto).
  - rewrite (run_eq _ _ _ Hsrc). apply loop_response_external.
  - case_bool_decide; [|simpl; tauto].
    rewrite (cont_eq _ _ _ _ _ Hst Hsrc). apply loop_response_external.
  - unfold get_var. repeat case_match; simpl; tauto.
  - unfold set_var. repeat case_match; simpl; tauto.
Qed.

Lemma dispatch_external name args a st :
  consistent st -> ~ internal_answer (dispatch name args a st).1.
Proof.
  intros Hc. unfold dispatch. repeat case_decide; try (simpl; tauto).
  - unfold list_breakpoints. case_match; simpl; tauto.
  - unfold add_breakpoint. repeat case_match; simpl; tauto.
  - unfold rmv_breakpoint. repeat case_match; simpl; tauto.
  - destruct (attach_cases args a st)
      as [-> | [-> | [[p ->] | (_ & _ & _ & _ & st' & -> & _)]]];
      simpl; tauto.
  - unfold detach. case_match; simpl; tauto.
  - by apply attached_command_external.
Qed.

(** X5. The two guards of [cont] never fire.  In every reachable state
    the program that a client debugs is in [self.states] and in the
    catalog, so no command is answered with [Error: Start first.] and
    the lookup [self.programs[program]] of [cont] never raises
    [KeyError]. *)
Theorem cont_guards_never_fire catalog st cmd a :
  reachable catalog st ->
  (forall p, session_of a st = Some p ->
             is_Some (states st !! p) /\ known p st)
  /\ (process_command cmd a st).1 <> RStartFirst
  /\ (process_command cmd a st).1 <> RRaised "KeyError".
Proof.
  intros Hr. pose proof (reachable_consistent _ _ Hr) as Hc. split.
  - intros p Hs. apply lookup_session_Some in Hs.
    destruct Hc as ([_ Hknown] & _ & Hattached & _).
    split; [by apply (Hattached _ _ Hs) | by apply (Hknown _ _ Hs)].
  - unfold process_command.
    destruct (parse_command cmd) as [[name args]|]; [|done].
    pose proof (dispatch_external name args a st Hc) as Hext.
    destruct (dispatch name args a st).1; simpl in Hext; split; try done;
      tauto.
Qed.

(** ** Commands that need an attachment *)

Lemma dispatch_attached_command name args a st :
  name ∉ ["help"; "list_programs"; "list_breakpoints"; "add_breakpoint";
          "rmv_breakpoint"; "attach"; "detach"] ->
  dispatch name args a st = attached_command name args a st.
Proof.
  intros Hn. unfold dispatch.
  repeat (case_decide; [subst; destruct Hn; set_solver|]). done.
Qed.


Lemma cleanup_unattached a st :
  lookup_session a (debugging st) = None -> cleanup a st = st.
Proof.
  intros Hs%lookup_session_None. unfold cleanup.
  assert (forall q u, (q, u) ∈ debugging st -> u <> a) as Hall.
  { intros q u Hin ->. apply Hs. change a with (snd (q, a)).
    by apply list_elem_of_fmap_2. }
  clear Hs. revert Hall. generalize (debugging st) as snapshot.
  intros snapshot. revert st.
  induction snapshot as [|[q u] snapshot IH]; intros st Hall; simpl; [done|].
  destruct (decide (u = a)) as [->|Hne].
  - destruct (Hall q a); [apply list_elem_of_here | done].
  - apply IH. intros q' u' Hin. apply (Hall q' u').
    by apply list_elem_of_further.
Qed.

Lemma release_session a p st :
  attach_invariant st -> attached a p st ->
  lookup_session a (debugging (release p st)) = None.
Proof.
  intros Hinv Ha.
  by destruct (release_spec a p st Hinv Ha) as [Hs _].
Qed.

(** X7. [detach] from a client that debugs nothing answers [Not
    attached.] and changes nothing; in a reachable state this is what a
    second [detach] in a row always gets. *)
Theorem detach_twice catalog cmd args a st :
  reachable catalog st ->
  parse_command cmd = Some ("detach", args) ->
  (session_of a st = None -> process_command cmd a st = (RNotAttached, st))
  /\ process_command cmd a (process_command cmd a st).2
     = (RNotAttached, (process_command cmd a st).2).
Proof.
  intros Hr Hp. pose proof (reachable_invariant _ _ Hr) as Hinv.
  rewrite !(process_command_parsed _ _ _ _ _ Hp).
  change (dispatch "detach" args a) with (detach a).
  assert (forall st0, lookup_session a (debugging st0) = None ->
            detach a st0 = (RNotAttached, st0)) as Hnone.
  { intros st0 Hs. unfold detach. by rewrite Hs. }
  split; [apply Hnone|].
  destruct (lookup_session a (debugging st)) as [p|] eqn:Hs.
  - assert (attached a p st) as Ha.
    { apply in_attached; [done | by apply lookup_session_Some]. }
    destruct (cleanup_release _ _ _ Hinv Ha) as [_ ->]. simpl.
    apply Hnone. by apply release_session.
  - rewrite (Hnone st Hs). simpl. by apply Hnone.
Qed.

(** X8. [help], [list_programs], [list_breakpoints] and [get_var]
    never change the server, whatever their arguments and whoever sends
    them. *)
Theorem inspection_changes_nothing cmd name args a st :
  parse_command cmd = Some (name, args) ->
  name ∈ ["help"; "list_programs"; "list_breakpoints"; "get_var"] ->
  (process_command cmd a st).2 = st.
Proof.
  intros Hp Hn. rewrite (process_command_parsed _ _ _ _ _ Hp).
  repeat (apply elem_of_cons in Hn as [-> | Hn]);
    [done | done | | | by apply elem_of_nil in Hn].
  - unfold dispatch. simpl. unfold list_breakpoints. by case_match.
  - unfold dispatch. simpl. unfold attached_command.
    destruct (lookup_session a (debugging st)); [|done].
    case_decide; [done|]. simpl. unfold get_var. by repeat case_match.
Qed.

(** ** Variables *)


Lemma dict_get_set_ne {V} k k' (v : V) (d : Dict.t V) :
  k' <> k -> Dict.get k' (Dict.set k v d) = Dict.get k' d.
Proof.
  intros Hne. induction d as [|[k0 v0] d IH]; simpl.
  - by rewrite decide_False.
  - destruct (decide (k0 = k)) as [->|Hne0]; simpl.
    + by rewrite !decide_False.
    + destruct (decide (k0 = k')); [done | apply IH].
Qed.

Lemma attached_context a p st :
  consistent st -> attached a p st ->
  exists idx l src,
    states st !! p = Some (idx, l)
    /\ contexts st !! p = Some l
    /\ l < length (heap st)
    /\ context_of p st = heap_get l st
    /\ Dict.get p (programs st) = Some src.
Proof.
  intros ([_ Hknown] & _ & Hattached & Halias & _) Ha.
  apply attached_in in Ha.
  destruct (Hattached _ _ Ha) as [[idx l] Hs].
  destruct (Halias _ _ _ Hs) as [Hc Hl].
  destruct (Hknown _ _ Ha) as [_ Hk].
  apply known_source in Hk as [src Hsrc].
  exists idx, l, src. unfold context_of, loc in *. rewrite Hc.
  split; [done|]. split; [done|]. split; [done|]. split; done.
Qed.

Lemma heap_get_set l c st :
  l < length (heap st) -> heap_get l (heap_set l c st) = c.
Proof.
  intros Hl. unfold heap_get. simpl. by rewrite list_lookup_insert_eq.
Qed.

Lemma heap_get_set_ne l l' c st :
  l <> l' -> heap_get l' (heap_set l c st) = heap_get l' st.
Proof.
  intros Hl. unfold heap_get. simpl. by rewrite list_lookup_insert_ne.
Qed.

Lemma set_var_ok a p st args var e v l :
  contexts st !! p = Some l ->
  PyStr.split_maxsplit1 args = [var; e] ->
  eval_expr e (heap_get l st) = inl v ->
  set_var p args st
  = (RVarSet var (repr v), heap_set l (Dict.set var v (heap_get l st)) st).
Proof.
  intros Hc Hs He. unfold set_var, loc in *. by rewrite Hs, Hc, He.
Qed.

Lemma get_var_answer p var st :
  get_var p var st
  = (match Dict.get var (context_of p st) with
     | Some v => RVar var (repr v)
     | None => RVarNotFound var
     end, st).
Proof. unfold get_var, context_of. by repeat case_match. Qed.


(** X10. A variable bound with [set_var] while the program is paused
    is seen by the resumed run: [continue] runs the loop from the stored
    cursor on the context that [set_var] changed. *)
Theorem set_var_reaches_resumed_run catalog st a p set args var e v
    resume args' idx l src :
  reachable catalog st ->
  attached a p st ->
  is_paused p st ->
  states st !! p = Some (idx, l) ->
  Dict.get p (programs st) = Some src ->
  parse_command set = Some ("set_var", args) ->
  PyStr.split_maxsplit1 args = [var; e] ->
  eval_expr e (context_of p st) = inl v ->
  parse_command resume = Some ("continue", args') ->
  (process_command resume a (process_command set a st).2).1
  = loop_response p
      (run_loop (breakpoints st !! p) (drop idx (PyStr.splitlines src)) idx
         (Dict.set var v (context_of p st))).
Proof.
  intros Hr Ha Hpaused Hst Hsrc Hp Hs He Hres.
  pose proof (reachable_consistent _ _ Hr) as Hc.
  destruct (attached_context _ _ _ Hc Ha)
    as (idx0 & l0 & src0 & Hst0 & Hctx & Hl & Hcof & _).
  assert (l0 = l) as -> by (unfold loc in *; congruence).
  rewrite Hcof in He |- *.
  rewrite (process_command_parsed _ _ _ _ _ Hp).
  change (dispatch "set_var" args a st)
    with (attached_command "set_var" args a st).
  rewrite (attached_command_resolved _ _ _ _ _ Ha). simpl.
  rewrite (set_var_ok a p st args var e v l) by done. simpl.
  rewrite (continue_paused resume args' a p _ idx l src); try done.
  simpl. by rewrite heap_get_set.
Qed.

(** ** Runs of one program and the other programs *)

Lemma run_fields p st src :
  Dict.get p (programs st) = Some src ->
  let res := run_loop (breakpoints st !! p) (PyStr.splitlines src) 0 [] in
  let st' := (run p st).2 in
  (run p st).1 = loop_response p res
  /\ programs st' = programs st
  /\ debugging st' = debugging st
  /\ breakpoints st' = breakpoints st
  /\ contexts st' = <[p := length (heap st)]> (contexts st)
  /\ heap st' = (heap st ++ [loop_ctx res])%list
  /\ executing st' = ({[p]} ∪ ({[p]} ∪ executing st)) ∖ {[p]}
  /\ (is_paused p st' <-> exists i c up, res = LoopPaused i c up)
  /\ (forall q, q <> p -> (is_paused q st' <-> is_paused q st))
  /\ states st' !! p = Some (loop_cursor 0 res, length (heap st))
  /\ forall q, p <> q -> states st' !! q = states st !! q.
Proof.
  intros Hsrc. simpl. rewrite (run_eq _ _ _ Hsrc). simpl.
  set (res := run_loop _ _ _ _).
  set (st0 := mark_running p (fresh_context p (mark_running p st))).
  destruct (store_result_frame p (length (heap st)) res st0)
    as (-> & -> & -> & -> & ->).
  rewrite store_result_executing.
  split; [done|]. split; [done|]. split; [done|]. split; [done|].
  split; [done|]. split.
  { subst st0. simpl. rewrite insert_app_r_alt by lia.
    by rewrite Nat.sub_diag. }
  split; [done|]. split; [apply store_result_markers|]. split.
  { intros q Hq. unfold is_paused. rewrite store_result_paused.
    subst st0. destruct res; simpl; set_solver. }
  split.
  - apply store_result_states. subst st0. simpl. by rewrite lookup_insert_eq.
  - intros q Hq. rewrite store_result_states_other by done.
    subst st0. simpl. by rewrite lookup_insert_ne.
Qed.

Lemma cont_paused_iff p st idx l src :
  states st !! p = Some (idx, l) ->
  Dict.get p (programs st) = Some src ->
  let res := run_loop (breakpoints st !! p) (drop idx (PyStr.splitlines src))
               idx (heap_get l st) in
  (is_paused p (cont p st).2 <-> exists i c up, res = LoopPaused i c up)
  /\ (forall q, q <> p -> (is_paused q (cont p st).2 <-> is_paused q st)).
Proof.
  intros Hs Hsrc. simpl.
  destruct (cont_fields _ _ _ _ _ Hs Hsrc)
    as (_ & _ & _ & _ & _ & _ & _ & Hpa & _).
  unfold is_paused. rewrite Hpa.
  destruct (run_loop _ _ _ _); split;
    try (intros q Hq); set_solver.
Qed.

(** X11. [start], [continue], [get_var] and [set_var] act on the
    program of the client only: every other program keeps its cursor,
    its context and its paused marker, and the breakpoints and the
    attachments are as before. *)
Theorem other_programs_untouched catalog st cmd name args a p q :
  reachable catalog st ->
  attached a p st ->
  parse_command cmd = Some (name, args) ->
  name ∈ ["start"; "continue"; "get_var"; "set_var"] ->
  q <> p ->
  let st' := (process_command cmd a st).2 in
  states st' !! q = states st !! q
  /\ (is_Some (states st !! q) -> context_of q st' = context_of q st)
  /\ (is_paused q st' <-> is_paused q st)
  /\ breakpoints st' = breakpoints st
  /\ debugging st' = debugging st.
Proof.
  intros Hr Ha Hp Hn Hq. simpl.
  pose proof (reachable_consistent _ _ Hr) as Hc.
  destruct (attached_context _ _ _ Hc Ha)
    as (idx & l & src & Hst & Hctx & Hl & Hcof & Hsrc).
  destruct Hc as (_ & _ & _ & Halias & Hsep & _).
  assert (forall j lq, states st !! q = Some (j, lq) ->
            contexts st !! q = Some lq /\ lq < length (heap st) /\ lq <> l)
    as Hother.
  { intros j lq Hsq. destruct (Halias _ _ _ Hsq) as [Hcq Hlq].
    split; [done|]. split; [done|]. intros ->.
    apply Hq. by eapply Hsep. }
  rewrite (process_command_parsed _ _ _ _ _ Hp).
  assert (dispatch name args a st = attached_command name args a st) as ->.
  { apply dispatch_attached_command. intros Hbad.
    repeat (apply elem_of_cons in Hn as [-> | Hn]);
      try by apply elem_of_nil in Hn.
    all: set_solver. }
  rewrite (attached_command_resolved _ _ _ _ _ Ha).
  repeat (apply elem_of_cons in Hn as [-> | Hn]);
    [| | | | by apply elem_of_nil in Hn]; simpl.
  - destruct (run_fields p st src Hsrc)
      as (_ & _ & Hd' & Hb' & Hc' & Hh' & _ & _ & Hpa' & _ & Hs').
    split; [by apply Hs'|]. split; [|split; [by apply Hpa'|done]].
    intros [[j lq] Hsq]. destruct (Hother _ _ Hsq) as (Hcq & Hlq & _).
    unfold context_of, heap_get, loc in *.
    rewrite Hc', Hh', lookup_insert_ne, Hcq by done.
    by rewrite lookup_app_l.
  - case_bool_decide; [|done].
    destruct (cont_fields _ _ _ _ _ Hst Hsrc)
      as (_ & _ & Hd' & Hb' & Hc' & Hh' & _ & _ & _ & Hs').
    destruct (cont_paused_iff _ _ _ _ _ Hst Hsrc) as [_ Hpa'].
    split; [by apply Hs'|]. split; [|split; [by apply Hpa'|done]].
    intros [[j lq] Hsq]. destruct (Hother _ _ Hsq) as (Hcq & Hlq & Hne).
    unfold context_of, heap_get, loc in *.
    rewrite Hc', Hh', Hcq. by rewrite list_lookup_insert_ne.
  - by rewrite get_var_answer.
  - unfold set_var, loc in *. rewrite Hctx.
    repeat case_match; try done. simpl.
    split; [done|]. split; [|done].
    intros [[j lq] Hsq]. destruct (Hother _ _ Hsq) as (Hcq & Hlq & Hne).
    unfold context_of, heap_get, loc in *. simpl.
    rewrite Hcq. by rewrite list_lookup_insert_ne.
Qed.

Lemma lookup_session_del b p (d : Dict.t addr) :
  lookup_session b d = None -> lookup_session b (Dict.del p d) = None.
Proof.
  rewrite !lookup_session_None. intros Hb Hin. apply Hb.
  apply list_elem_of_fmap in Hin as ([q u] & -> & Hq).
  apply dict_del_elem in Hq as [Hq _].
  change u with (snd (q, u)). by apply list_elem_of_fmap_2.
Qed.

(** X12. An execution state outlives its attachment.  After [detach]
    and a new [attach] to the same program, by the same or by another
    client, the cursor and the variable context are those the first
    client left, so [get_var] shows its variables; the paused marker is
    gone, so [continue] is refused until the program is started
    again. *)
Theorem reattach_keeps_context catalog st a b p det args att :
  reachable catalog st ->
  attached a p st ->
  parse_command det = Some ("detach", args) ->
  parse_command att = Some ("attach", p) ->
  b = a \/ session_of b st = None ->
  let st1 := (process_command det a st).2 in
  let st2 := (process_command att b st1).2 in
  (process_command att b st1).1 = RAttached p
  /\ attached b p st2
  /\ cursor_of p st2 = cursor_of p st
  /\ context_of p st2 = context_of p st
  /\ ~ is_paused p st2
  /\ forall resume rargs,
       parse_command resume = Some ("continue", rargs) ->
       process_command resume b st2 = (RNotPaused p, st2).
Proof.
  intros Hr Ha Hdet Hatt Hb. simpl.
  pose proof (reachable_consistent _ _ Hr) as Hc.
  pose proof Hc as (Hinv & _ & Hattached & _).
  pose proof Hinv as [_ Hknown].
  pose proof (attached_in _ _ _ Ha) as Hin.
  destruct (Hknown _ _ Hin) as [Hne Hk].
  destruct (Hattached _ _ Hin) as [sp Hsp].
  rewrite (process_command_parsed _ _ _ _ _ Hdet).
  change (dispatch "detach" args a st) with (detach a st).
  destruct (cleanup_release _ _ _ Hinv Ha) as [_ ->]. simpl.
  rewrite (process_command_parsed _ _ _ _ _ Hatt).
  change (dispatch "attach" p b (release p st))
    with (attach p b (release p st)).
  assert (lookup_session b (debugging (release p st)) = None) as Hfree.
  { destruct Hb as [-> | Hb]; [by apply release_session|].
    simpl. by apply lookup_session_del. }
  rewrite attach_free_state; [|done|done| |done].
  2:{ simpl. apply dict_mem_false, dict_del_keys. }
  simpl. rewrite Hsp.
  set (st2 := with_debugging _ _).
  assert (attach_invariant st2) as Hinv2.
  { pose proof (attach_preserves p b (release p st)
      (release_preserves p st Hinv)) as Hpres.
    rewrite attach_free_state in Hpres; [|done|done| |done].
    2:{ simpl. apply dict_mem_false, dict_del_keys. }
    simpl in Hpres. by rewrite Hsp in Hpres. }
  assert (attached b p st2) as Ha2.
  { apply in_attached; [done|]. subst st2. simpl.
    rewrite dict_set_fresh by apply dict_del_keys.
    apply elem_of_app. right. by apply list_elem_of_singleton. }
  assert (~ is_paused p st2) as Hnp.
  { unfold is_paused. subst st2. simpl. set_solver. }
  split; [done|]. split; [done|]. split; [done|]. split; [done|].
  split; [done|].
  intros resume rargs Hres.
  rewrite (process_command_parsed _ _ _ _ _ Hres).
  change (dispatch "continue" rargs b st2)
    with (attached_command "continue" rargs b st2).
  rewrite (attached_command_resolved _ _ _ _ _ Ha2). simpl.
  by rewrite bool_decide_eq_false_2.
Qed.

Lemma loop_response_breakpoint p res :
  (exists L up, loop_response p res = RBreakpointAt L up)
  <-> exists i c up, res = LoopPaused i c up.
Proof.
  destruct res; simpl; split; eauto;
    try (by intros (? & ? & ?)); by intros (? & ? & ? & ?).
Qed.

Lemma edit_busy_iff ename eargs b st p line n :
  ename = "add_breakpoint" \/ ename = "rmv_breakpoint" ->
  PyStr.split eargs = [p; line] ->
  known p st ->
  py_int line = Some n ->
  (dispatch ename eargs b st).1 = RBusy p <-> busy p st = true.
Proof.
  intros Hname Hs Hk Hn. destruct (busy p st) eqn:Hb.
  - destruct Hname as [-> | ->]; unfold dispatch; simpl.
    + by rewrite (add_breakpoint_busy _ _ _ _ Hs Hk Hb).
    + by rewrite (rmv_breakpoint_busy _ _ _ _ Hs Hk Hb).
  - destruct Hname as [-> | ->]; unfold dispatch; simpl.
    + by destruct (add_breakpoint_idle _ _ _ _ _ Hs Hk Hb Hn)
        as (st' & -> & _).
    + by destruct (rmv_breakpoint_idle _ _ _ _ _ Hs Hk Hb Hn)
        as (st' & -> & _).
Qed.

(** X13. After [start] or [continue] the program of the client is
    paused exactly when the answer was a breakpoint.  Then, and only
    then, [add_breakpoint] and [rmv_breakpoint] on that program are
    refused as busy, for every client; and when the answer was no
    breakpoint, a following [continue] is refused as not paused. *)
Theorem pause_blocks_edits catalog st cmd name args a p :
  reachable catalog st ->
  attached a p st ->
  parse_command cmd = Some (name, args) ->
  name = "start" \/ name = "continue" ->
  let r := (process_command cmd a st).1 in
  let st' := (process_command cmd a st).2 in
  (is_paused p st' <-> exists L up, r = RBreakpointAt L up)
  /\ (forall edit ename eargs b line n,
        parse_command edit = Some (ename, eargs) ->
        ename = "add_breakpoint" \/ ename = "rmv_breakpoint" ->
        PyStr.split eargs = [p; line] ->
        py_int line = Some n ->
        ((process_command edit b st').1 = RBusy p
         <-> exists L up, r = RBreakpointAt L up))
  /\ (forall resume rargs,
        parse_command resume = Some ("continue", rargs) ->
        ~ (exists L up, r = RBreakpointAt L up) ->
        process_command resume a st' = (RNotPaused p, st')).
Proof.
  intros Hr Ha Hp Hname. simpl.
  assert (reachable catalog (process_command cmd a st).2) as Hr'.
  { eapply rtc_r; [exact Hr | apply step_command]. }
  pose proof (reachable_consistent _ _ Hr) as Hc.
  pose proof (reachable_consistent _ _ Hr') as Hc'.
  destruct (attached_context _ _ _ Hc Ha)
    as (idx & l & src & Hst & _ & _ & _ & Hsrc).
  assert (attached a p (process_command cmd a st).2
          /\ known p (process_command cmd a st).2
          /\ (is_paused p (process_command cmd a st).2
              <-> exists L up, (process_command cmd a st).1
                               = RBreakpointAt L up))
    as (Ha' & Hk' & Hiff).
  { rewrite (process_command_parsed _ _ _ _ _ Hp).
    assert (dispatch name args a st = attached_command name args a st)
      as -> by (destruct Hname as [-> | ->]; done).
    rewrite (attached_command_resolved _ _ _ _ _ Ha).
    assert (known p st) as Hk.
    { unfold known, Dict.mem. by rewrite Hsrc. }
    destruct Hname as [-> | ->]; simpl.
    - destruct (run_fields p st src Hsrc)
        as (-> & Hp' & Hd' & _ & _ & _ & _ & Hpa' & _).
      unfold attached, session_of, known. rewrite Hd', Hp'.
      split; [done|]. split; [done|].
      by rewrite Hpa', loop_response_breakpoint.
    - case_bool_decide as Hpaused.
      + destruct (cont_fields _ _ _ _ _ Hst Hsrc)
          as (-> & Hp' & Hd' & _).
        destruct (cont_paused_iff _ _ _ _ _ Hst Hsrc) as [Hpa' _].
        unfold attached, session_of, known. rewrite Hd', Hp'.
        split; [done|]. split; [done|].
        by rewrite Hpa', loop_response_breakpoint.
      + simpl. split; [done|]. split; [done|].
        split; [done | by intros (? & ? & ?)]. }
  destruct Hc' as (_ & [Hexec' _] & _).
  assert (busy p (process_command cmd a st).2 = true
          <-> is_paused p (process_command cmd a st).2) as Hbusy.
  { rewrite busy_true. unfold is_running. rewrite Hexec'. set_solver. }
  split; [done|]. split.
  - intros edit ename eargs b line n He Hen Hs Hn.
    rewrite (process_command_parsed _ _ _ _ _ He).
    by rewrite (edit_busy_iff _ _ _ _ _ _ _ Hen Hs Hk' Hn), Hbusy.
  - intros resume rargs Hres Hnb.
    rewrite (process_command_parsed _ _ _ _ _ Hres).
    change (dispatch "continue" rargs a (process_command cmd a st).2)
      with (attached_command "continue" rargs a
              (process_command cmd a st).2).
    rewrite (attached_command_resolved _ _ _ _ _ Ha'). simpl.
    rewrite bool_decide_eq_false_2; [done|].
    fold (is_paused p (process_command cmd a st).2). tauto.
Qed.

(** X14. A breakpoint answer is truthful.  When [start] or [continue]
    answers with a breakpoint at line [L], then [L] is a registered
    breakpoint of the program, it lies between 2 and one past the last
    line, the text in the answer is the stripped line [L] of the source
    (or [end of program] when [L] is one past the last line), and the
    stored cursor is [L - 1]. *)
Theorem breakpoint_answer_is_truthful catalog st cmd name args a p src L up :
  reachable catalog st ->
  attached a p st ->
  Dict.get p (programs st) = Some src ->
  parse_command cmd = Some (name, args) ->
  name = "start" \/ name = "continue" ->
  (process_command cmd a st).1 = RBreakpointAt L up ->
  L ∈ default ∅ (breakpoints st !! p)
  /\ (2 <= L <= Z.of_nat (length (PyStr.splitlines src)) + 1)%Z
  /\ up = match PyStr.splitlines src !! (Z.to_nat L - 1) with
          | Some text => PyStr.strip text
          | None => "end of program"
          end
  /\ cursor_of p (process_command cmd a st).2 = Some (Z.to_nat L - 1).
Proof.
  intros Hr Ha Hsrc Hp Hname.
  pose proof (reachable_consistent _ _ Hr) as Hc.
  destruct (attached_context _ _ _ Hc Ha)
    as (idx & l & src0 & Hst & _ & _ & _ & Hsrc0).
  assert (src0 = src) as -> by congruence.
  destruct Hc as (_ & _ & _ & _ & _ & Hcur & _).
  pose proof (Hcur _ _ _ _ Hst Hsrc) as Hidx.
  rewrite (process_command_parsed _ _ _ _ _ Hp).
  assert (dispatch name args a st = attached_command name args a st)
    as -> by (destruct Hname as [-> | ->]; done).
  rewrite (attached_command_resolved _ _ _ _ _ Ha).
  assert (forall idx0 c0 res,
            res = run_loop (breakpoints st !! p)
                    (drop idx0 (PyStr.splitlines src)) idx0 c0
            -> idx0 <= length (PyStr.splitlines src)
            -> loop_response p res = RBreakpointAt L up ->
            L ∈ default ∅ (breakpoints st !! p)
            /\ (2 <= L <= Z.of_nat (length (PyStr.splitlines src)) + 1)%Z
            /\ up = match PyStr.splitlines src !! (Z.to_nat L - 1) with
                    | Some text => PyStr.strip text
                    | None => "end of program"
                    end
            /\ loop_cursor idx0 res = Z.to_nat L - 1) as Hloop.
  { intros idx0 c0 res Hres Hle Hresp.
    destruct res as [i c u | i c | i msg c]; try done.
    simpl in Hresp. injection Hresp as <- <-.
    symmetry in Hres. apply run_loop_paused in Hres as (Hb & Hhit & ->).
    rewrite length_drop in Hb. apply breakpoint_hit_true in Hhit.
    replace (Z.to_nat (Z.of_nat i + 1) - 1) with i by lia.
    split; [done|]. split; [lia|]. split; [|done].
    rewrite drop_drop, <- upcoming_text_drop. f_equal. f_equal. lia. }
  destruct Hname as [-> | ->]; simpl.
  - destruct (run_fields p st src Hsrc)
      as (-> & _ & _ & _ & _ & _ & _ & _ & _ & Hs' & _).
    intros Hresp.
    destruct (Hloop 0 [] _ eq_refl ltac:(lia) Hresp)
      as (H1 & H2 & H3 & H4).
    split; [done|]. split; [done|]. split; [done|].
    unfold cursor_of, loc in *. by rewrite Hs', <- H4.
  - case_bool_decide; [|done].
    destruct (cont_fields _ _ _ _ _ Hst Hsrc)
      as (-> & _ & _ & _ & _ & _ & _ & _ & Hs' & _).
    intros Hresp.
    destruct (Hloop idx _ _ eq_refl Hidx Hresp) as (H1 & H2 & H3 & H4).
    split; [done|]. split; [done|]. split; [done|].
    unfold cursor_of, loc in *. by rewrite Hs', <- H4.
Qed.

(** ** The breakpoint store *)

Lemma with_breakpoints_id st : with_breakpoints (breakpoints st) st = st.
Proof. by destruct st. Qed.

Lemma with_breakpoints_twice b b' st :
  with_breakpoints b (with_breakpoints b' st) = with_breakpoints b st.
Proof. done. Qed.

Lemma setdefault_idempotent p st :
  setdefault_breakpoints p (setdefault_breakpoints p st)
  = setdefault_breakpoints p st.
Proof.
  unfold setdefault_breakpoints.
  destruct (breakpoints st !! p) eqn:E; simpl; [by rewrite E|].
  by rewrite lookup_insert_eq.
Qed.

Lemma alter_idempotent (f : gset Z -> gset Z) p (m : gmap string (gset Z)) :
  (forall s, f (f s) = f s) -> alter f p (alter f p m) = alter f p m.
Proof.
  intros Hf. apply map_eq. intros q.
  destruct (decide (p = q)) as [<-|Hne].
  - rewrite !lookup_alter_eq. destruct (m !! p); simpl; by rewrite ?Hf.
  - by rewrite !lookup_alter_ne.
Qed.

Lemma edit_idempotent (f : gset Z -> gset Z) p st :
  (forall s, f (f s) = f s) ->
  let st1 := setdefault_breakpoints p st in
  let st2 := with_breakpoints (alter f p (breakpoints st1)) st1 in
  let st3 := setdefault_breakpoints p st2 in
  with_breakpoints (alter f p (breakpoints st3)) st3 = st2.
Proof.
  intros Hf. simpl.
  set (st1 := setdefault_breakpoints p st).
  assert (is_Some (breakpoints st1 !! p)) as [s Hs].
  { subst st1. rewrite setdefault_lookup. eauto. }
  unfold setdefault_breakpoints at 1 2. simpl.
  rewrite lookup_alter_eq, Hs. simpl.
  by rewrite alter_idempotent.
Qed.

(** X15. [add_breakpoint] and [rmv_breakpoint] are idempotent: the
    same command a second time, from any client, gets the same answer
    and leaves the server as the first left it.  This holds for the
    refused commands too, and for a line that is no integer. *)
Theorem breakpoint_edit_idempotent cmd name args a b st :
  parse_command cmd = Some (name, args) ->
  name = "add_breakpoint" \/ name = "rmv_breakpoint" ->
  process_command cmd b (process_command cmd a st).2
  = process_command cmd a st.
Proof.
  intros Hp Hname. rewrite !(process_command_parsed _ _ _ _ _ Hp).
  assert (forall s : gset Z, forall n, {[n]} ∪ ({[n]} ∪ s) = {[n]} ∪ s)
    as Hadd by (intros; apply leibniz_equiv; set_solver).
  assert (forall s : gset Z, forall n, (s ∖ {[n]}) ∖ {[n]} = s ∖ {[n]})
    as Hrmv by (intros; apply leibniz_equiv; set_solver).
  destruct Hname as [-> | ->]; unfold dispatch; simpl.
  - unfold add_breakpoint.
    destruct (PyStr.split args) as [|p [|line [|? ?]]]; try done.
    destruct (Dict.mem p (programs st)) eqn:Hk; simpl; [|by rewrite Hk].
    destruct (busy p st) eqn:Hb; simpl; [by rewrite Hk, Hb|].
    destruct (py_int line) as [n|] eqn:Hn; simpl.
    + assert (busy p (with_breakpoints
                (alter (fun s => {[n]} ∪ s) p
                   (breakpoints (setdefault_breakpoints p st)))
                (setdefault_breakpoints p st)) = false) as ->.
      { unfold setdefault_breakpoints.
        by destruct (breakpoints st !! p). }
      assert (Dict.mem p (programs (setdefault_breakpoints p st)) = true)
        as Hk' by (unfold setdefault_breakpoints;
                   by destruct (breakpoints st !! p)).
      simpl. rewrite Hk'. simpl. f_equal.
      apply (edit_idempotent (fun s => {[n]} ∪ s)). intros s. apply Hadd.
    + assert (busy p (setdefault_breakpoints p st) = false) as ->.
      { unfold setdefault_breakpoints.
        by destruct (breakpoints st !! p). }
      assert (Dict.mem p (programs (setdefault_breakpoints p st)) = true)
        as -> by (unfold setdefault_breakpoints;
                  by destruct (breakpoints st !! p)).
      simpl. by rewrite setdefault_idempotent.
  - unfold rmv_breakpoint.
    destruct (PyStr.split args) as [|p [|line [|? ?]]]; try done.
    destruct (Dict.mem p (programs st)) eqn:Hk; simpl; [|by rewrite Hk].
    destruct (busy p st) eqn:Hb; simpl; [by rewrite Hk, Hb|].
    destruct (py_int line) as [n|] eqn:Hn; simpl.
    + assert (busy p (with_breakpoints
                (alter (fun s => s ∖ {[n]}) p
                   (breakpoints (setdefault_breakpoints p st)))
                (setdefault_breakpoints p st)) = false) as ->.
      { unfold setdefault_breakpoints.
        by destruct (breakpoints st !! p). }
      assert (Dict.mem p (programs (setdefault_breakpoints p st)) = true)
        as Hk' by (unfold setdefault_breakpoints;
                   by destruct (breakpoints st !! p)).
      simpl. rewrite Hk'. simpl. f_equal.
      apply (edit_idempotent (fun s => s ∖ {[n]})). intros s. apply Hrmv.
    + assert (busy p (setdefault_breakpoints p st) = false) as ->.
      { unfold setdefault_breakpoints.
        by destruct (breakpoints st !! p). }
      assert (Dict.mem p (programs (setdefault_breakpoints p st)) = true)
        as -> by (unfold setdefault_breakpoints;
                  by destruct (breakpoints st !! p)).
      simpl. by rewrite setdefault_idempotent.
Qed.

(** X16. Adding a line that is not a breakpoint yet and removing it
    again gives back the breakpoint set of the program, and
    [list_breakpoints] then lists that set; both commands succeed.  For
    a program without an entry the set that comes back is the empty
    one. *)
Theorem add_then_remove_breakpoint add rmv list args a st p line n :
  parse_command add = Some ("add_breakpoint", args) ->
  parse_command rmv = Some ("rmv_breakpoint", args) ->
  parse_command list = Some ("list_breakpoints", p) ->
  PyStr.split args = [p; line] ->
  known p st ->
  ~ (is_running p st \/ is_paused p st) ->
  py_int line = Some n ->
  n ∉ default ∅ (breakpoints st !! p) ->
  let st1 := (process_command add a st).2 in
  let st2 := (process_command rmv a st1).2 in
  (process_command add a st).1 = RBreakpointSet line p
  /\ (process_command rmv a st1).1 = RBreakpointRemoved line p
  /\ n ∈ default ∅ (breakpoints st1 !! p)
  /\ breakpoints st2 !! p = Some (default ∅ (breakpoints st !! p))
  /\ (process_command list a st2).1
     = RBreakpoints p (sorted (default ∅ (breakpoints st !! p))).
Proof.
  intros Hadd Hrmv Hlist Hs Hk Hidle Hn Hfresh. simpl.
  apply busy_false in Hidle.
  rewrite (process_command_parsed _ _ _ _ _ Hadd).
  change (dispatch "add_breakpoint" args a st) with (add_breakpoint args st).
  destruct (add_breakpoint_idle _ _ _ _ _ Hs Hk Hidle Hn)
    as (st1 & E1 & Hb1).
  assert (known p st1 /\ busy p st1 = false) as [Hk1 Hidle1].
  { revert E1. unfold add_breakpoint. unfold known in Hk.
    rewrite Hs, Hk, Hidle, Hn. simpl. intros [= <-].
    unfold known, busy, setdefault_breakpoints in *.
    by destruct (breakpoints st !! p). }
  rewrite E1. simpl.
  rewrite (process_command_parsed _ _ _ _ _ Hrmv).
  change (dispatch "rmv_breakpoint" args a st1)
    with (rmv_breakpoint args st1).
  destruct (rmv_breakpoint_idle _ _ _ _ _ Hs Hk1 Hidle1 Hn)
    as (st2 & E2 & Hb2).
  rewrite E2. simpl.
  assert (breakpoints st2 !! p = Some (default ∅ (breakpoints st !! p)))
    as Hback.
  { rewrite Hb2, Hb1. simpl. f_equal. apply leibniz_equiv. set_solver. }
  split; [done|]. split; [done|]. split.
  { rewrite Hb1. simpl. set_solver. }
  split; [done|].
  rewrite (process_command_parsed _ _ _ _ _ Hlist).
  change (dispatch "list_breakpoints" p a st2) with (list_breakpoints p st2).
  by rewrite (list_breakpoints_some _ _ _ Hback).
Qed.

(** X17. For a program with a breakpoint entry, [list_breakpoints]
    answers with the lines of its set in strictly increasing order, each
    once, and changes nothing. *)
Theorem list_breakpoints_is_sorted cmd p a st s :
  parse_command cmd = Some ("list_breakpoints", p) ->
  breakpoints st !! p = Some s ->
  exists lines,
    process_command cmd a st = (RBreakpoints p lines, st)
    /\ StronglySorted Z.lt lines
    /\ forall x, x ∈ lines <-> x ∈ s.
Proof.
  intros Hp Hs. exists (sorted s).
  rewrite (process_command_parsed _ _ _ _ _ Hp).
  change (dispatch "list_breakpoints" p a st) with (list_breakpoints p st).
  rewrite (list_breakpoints_some _ _ _ Hs).
  split; [done|]. apply sorted_spec.
Qed.

(** ** Programs without statements *)

Lemma run_loop_no_statement bps rest idx c :
  Forall (fun l => executable l = false) rest ->
  run_loop bps rest idx c = LoopFinished (idx + length rest) c.
Proof.
  intros Hall. revert idx. induction Hall as [|l rest Hl _ IH]; intros idx.
  - simpl. f_equal. lia.
  - simpl. unfold executable in Hl. apply negb_false_iff in Hl.
    rewrite Hl, IH. f_equal. lia.
Qed.

(** X18. A program without an executable statement (an empty source,
    or only blank lines and comments) finishes at once: [start] answers
    [Finished] with no variables and never pauses, whatever breakpoints
    are registered, and the cursor is at the end. *)
Theorem program_without_statements cmd args a p st src :
  parse_command cmd = Some ("start", args) ->
  attached a p st ->
  Dict.get p (programs st) = Some src ->
  Forall (fun l => executable l = false) (PyStr.splitlines src) ->
  (process_command cmd a st).1 = RFinished p []
  /\ ~ is_paused p (process_command cmd a st).2
  /\ cursor_of p (process_command cmd a st).2
     = Some (length (PyStr.splitlines src))
  /\ context_of p (process_command cmd a st).2 = [].
Proof.
  intros Hp Ha Hsrc Hall.
  rewrite (process_command_parsed _ _ _ _ _ Hp).
  change (dispatch "start" args a st)
    with (attached_command "start" args a st).
  rewrite (attached_command_resolved _ _ _ _ _ Ha). simpl.
  destruct (run_fields p st src Hsrc)
    as (-> & _ & _ & _ & Hc & Hh & _ & Hpa & _ & Hs & _).
  rewrite (run_loop_no_statement _ _ _ _ Hall) in *. simpl in *.
  split; [done|]. split; [|split].
  - rewrite Hpa. by intros (? & ? & ? & ?).
  - unfold cursor_of, loc in *. by rewrite Hs.
  - unfold context_of, heap_get, loc in *.
    rewrite Hc, Hh, lookup_insert_eq.
    by rewrite lookup_app_r, Nat.sub_diag by lia.
Qed.

(** ** Connections *)

Lemma serve_blank ms m rest a st :
  PyStr.strip m = "" ->
  serve (ms ++ m :: rest) a st = serve ms a st.
Proof.
  intros Hm. revert st. induction ms as [|m0 ms IH]; intros st; simpl.
  - by rewrite Hm.
  - destruct (PyStr.strip m0); [done|].
    destruct (process_command _ a st) as [r st']. rewrite IH.
    by destruct r.
Qed.

(** X19. A message that is empty after stripping ends the connection
    like a disconnection: nothing that follows it is processed, and the
    cleanup runs on the server as the messages before it left it. *)
Theorem blank_message_ends_connection ms m rest a st :
  PyStr.strip m = "" ->
  handle_client (ms ++ m :: rest) a st = handle_client ms a st.
Proof. intros Hm. unfold handle_client. by rewrite serve_blank. Qed.

Lemma serve_reachable catalog ms a st :
  reachable catalog st -> reachable catalog (serve ms a st).2.
Proof.
  revert st. induction ms as [|m ms IH]; intros st Hr; simpl; [done|].
  destruct (PyStr.strip m) as [|c data] eqn:Hm; [done|].
  assert (reachable catalog (process_command (String c data) a st).2)
    as Hr' by (eapply rtc_r; [exact Hr | apply step_command]).
  destruct (process_command (String c data) a st) as [r st'].
  specialize (IH st' Hr').
  destruct (serve ms a st') as [sent st'']. by destruct r.
Qed.

Lemma lookup_session_del_other b p (d : Dict.t addr) :
  (forall u, (p, u) ∈ d -> u <> b) ->
  lookup_session b (Dict.del p d) = lookup_session b d.
Proof.
  unfold lookup_session, Dict.del.
  induction d as [|[q u] d IH]; intros Hp; simpl; [done|].
  assert (forall u', (p, u') ∈ d -> u' <> b) as Hp'.
  { intros u' Hin. apply Hp. by apply list_elem_of_further. }
  rewrite filter_cons. simpl. destruct (decide (q <> p)) as [Hne|He]; simpl.
  - case_bool_decide; [done | by apply IH].
  - assert (q = p) as -> by (destruct (decide (q = p)); done).
    rewrite bool_decide_eq_false_2; [by apply IH|].
    apply Hp. apply list_elem_of_here.
Qed.

(** X20. However a connection ends, the server it leaves is a
    reachable one in which its client debugs nothing, its program is
    neither running nor paused, and every other client debugs what it
    debugged before the cleanup. *)
Theorem connection_end_releases catalog ms a st :
  reachable catalog st ->
  let left_loop := (serve ms a st).2 in
  let after := (handle_client ms a st).2 in
  reachable catalog after
  /\ session_of a after = None
  /\ (forall p, attached a p left_loop ->
        ~ is_running p after /\ ~ is_paused p after)
  /\ (forall b, b <> a -> session_of b after = session_of b left_loop).
Proof.
  intros Hr. simpl. unfold handle_client.
  pose proof (serve_reachable catalog ms a st Hr) as Hr'.
  destruct (serve ms a st) as [sent st']. simpl in *.
  pose proof (reachable_invariant _ _ Hr') as Hinv.
  split; [eapply rtc_r; [exact Hr' | apply step_disconnect]|].
  destruct (lookup_session a (debugging st')) as [p|] eqn:Hs.
  - assert (attached a p st') as Ha.
    { apply in_attached; [done | by apply lookup_session_Some]. }
    destruct (cleanup_release _ _ _ Hinv Ha) as [-> _].
    destruct (release_spec _ _ _ Hinv Ha) as (Hnone & Hnr & Hnp & _).
    split; [done|]. split.
    + intros q [Hq _]. unfold session_of in Hq.
      assert (q = p) as -> by congruence. done.
    + intros b Hb. unfold session_of. simpl.
      apply lookup_session_del_other. intros u Hu.
      destruct Hinv as [Hone _].
      rewrite (one_to_one_program _ _ _ _ Hone Hu
                 (lookup_session_Some _ _ _ Hs)). done.
  - rewrite (cleanup_unattached _ _ Hs).
    split; [done|]. split; [|done].
    intros q [Hq _]. unfold session_of in Hq. congruence.
Qed.

(** ** The client *)

Lemma string_app_cons c (s1 s2 : string) :
  (String c s1 ++ s2)%string = String c (s1 ++ s2).
Proof. reflexivity. Qed.

Lemma string_app_assoc (s1 s2 s3 : string) :
  ((s1 ++ s2) ++ s3)%string = (s1 ++ (s2 ++ s3))%string.
Proof.
  induction s1 as [|c s1 IH]; [done|].
  by rewrite !string_app_cons, IH.
Qed.

Lemma string_app_empty_r (s : string) : (s ++ "")%string = s.
Proof.
  induction s as [|c s IH]; [done|]. by rewrite string_app_cons, IH.
Qed.

Lemma split_on_acc_word sep cur s1 s2 :
  Client.contains sep s1 = false ->
  Client.split_on_acc sep cur (s1 ++ s2)
  = Client.split_on_acc sep (cur ++ s1) s2.
Proof.
  revert cur. induction s1 as [|c s1 IH]; intros cur Hs.
  - by rewrite string_app_empty_r.
  - rewrite string_app_cons. simpl in *.
    destruct (Ascii.eqb c sep); [done|].
    rewrite IH by done. rewrite string_app_assoc.
    by rewrite string_app_cons.
Qed.

(** X21. What the client takes for its attached program.  After a
    successful [attach] it is the program name when the name has no
    apostrophe, and otherwise only the part of the name before its first
    apostrophe; after a successful [detach] it is nothing; and the
    answer to any other command leaves it as it was. *)
Theorem client_tracks_attachment cmd p old :
  (Client.command_name cmd = "attach" ->
     (Client.contains "'" p = false ->
        Client.track_response cmd (Client.attached_text p) old = Some p)
     /\ (forall q r, Client.contains "'" q = false ->
           p = (q ++ "'" ++ r)%string ->
           Client.track_response cmd (Client.attached_text p) old = Some q))
  /\ (Client.command_name cmd = "detach" ->
        Client.track_response cmd (Client.detached_text p) old = None)
  /\ (Client.command_name cmd <> "attach" ->
      Client.command_name cmd <> "detach" ->
      forall text, Client.track_response cmd text old = old).
Proof.
  split; [|split].
  - intros Hc.
    assert (forall q rest, Client.contains "'" q = false ->
              Client.track_response cmd
                ("Attached to '" ++ q ++ "'" ++ rest)%string old = Some q)
      as Hq.
    { intros q rest Hq. unfold Client.track_response. rewrite Hc.
      assert (PyStr.startswith "Attached to"
                ("Attached to '" ++ q ++ "'" ++ rest) = true) as ->
        by reflexivity.
      assert (Client.contains "'" ("Attached to '" ++ q ++ "'" ++ rest)
              = true) as -> by reflexivity.
      assert (Client.split_on "'" ("Attached to '" ++ q ++ "'" ++ rest)
              = "Attached to "
                :: Client.split_on_acc "'" "" (q ++ "'" ++ rest)) as ->
        by reflexivity.
      rewrite split_on_acc_word by done.
      assert (Client.split_on_acc "'" ("" ++ q) ("'" ++ rest)
              = q :: Client.split_on_acc "'" "" rest) as -> by reflexivity.
      done. }
    split.
    + intros Hp. apply (Hq p "" Hp).
    + intros q r Hqn ->. unfold Client.attached_text.
      rewrite string_app_assoc. apply (Hq q _ Hqn).
  - intros Hc. unfold Client.track_response. by rewrite Hc.
  - intros Ha Hd text. unfold Client.track_response.
    by rewrite !bool_decide_eq_false_2.
Qed.

End More.

(** * The claims on concrete servers *)

Lemma breakpoint_edit_busy_rule_witness :
  (process_command (H := Stub.runtime) "add_breakpoint demo 2" Stub.alice
     Stub.server0).1 = RBreakpointSet "2" "demo".
Proof.
  pose proof (breakpoint_edit_busy_rule (H := Stub.runtime)
    "add_breakpoint demo 2" "add_breakpoint" "demo 2" Stub.alice
    Stub.server0 "demo" "2" 2%Z) as Hrule.
  destruct Hrule as (_ & _ & Hidle); [reflexivity | by left | reflexivity..|].
  apply Hidle; [|reflexivity].
  unfold is_running, is_paused; simpl.
  intros [Hx | Hx]; exact (not_elem_of_empty _ Hx).
Defined.

Lemma invalid_line_creates_entry_witness :
  (process_command (H := Stub.runtime) "list_breakpoints demo" Stub.bob
     (process_command (H := Stub.runtime) "add_breakpoint demo two"
        Stub.alice Stub.server0).2).1
  = RBreakpoints "demo" [].
Proof.
  apply (invalid_line_creates_entry (H := Stub.runtime)
    "add_breakpoint demo two" "demo two" "list_breakpoints demo"
    Stub.alice Stub.bob Stub.server0 "demo" "two");
    try reflexivity.
  unfold is_running, is_paused; simpl.
  intros [Hx | Hx]; exact (not_elem_of_empty _ Hx).
Defined.

Lemma reachable_after catalog a cmds (st : Server (H := Stub.runtime)) :
  reachable catalog st -> reachable catalog (Stub.after a cmds st).
Proof.
  revert st. induction cmds as [|cmd cmds IH]; intros st Hr; [done|].
  simpl. apply IH. eapply rtc_r; [exact Hr | apply step_command].
Qed.

Lemma reachable_server0 : reachable Stub.catalog Stub.server0.
Proof. apply rtc_refl. Qed.

Lemma attachment_is_exclusive_witness :
  process_command (H := Stub.runtime) "attach demo" Stub.bob
    Stub.attached_demo
  = (RAlreadyDebugged "demo", Stub.attached_demo).
Proof.
  pose proof (attachment_is_exclusive (H := Stub.runtime) Stub.catalog
    Stub.attached_demo
    (reachable_after _ _ _ _ reachable_server0)) as (_ & _ & Hattach).
  destruct (Hattach "attach demo" "demo" Stub.bob eq_refl)
    as (_ & Htaken & _).
  apply Htaken. exists Stub.alice. apply list_elem_of_here.
Defined.

(** C3 at a freshly started server: [demo] is in the catalog and no
    breakpoint was ever added, and [list_breakpoints demo] answers that
    the program is not found instead of listing nothing. *)
Theorem list_breakpoints_without_entry :
  known (H := Stub.runtime) "demo" Stub.server0
  /\ process_command (H := Stub.runtime) "list_breakpoints demo" Stub.alice
       Stub.server0
     = (RNotFound "demo", Stub.server0)
  /\ (process_command (H := Stub.runtime) "list_programs" Stub.alice
        Stub.server0).1
     = RPrograms ["demo"; "other"; "faulty"].
Proof. split_and!; reflexivity. Qed.

(** C9. The program [demo] has the three lines [x = 1], [y = 2],
    [x = x + y].  Without breakpoints, [attach demo] answers that the
    client is attached and [start] runs to the end with [x = 3] and
    [y = 2].  With a breakpoint at line 2, [start] pauses with an answer
    naming line 2 and the statement [y = 2], and [continue] then runs to
    the end with [x = 3] and [y = 2]. *)
Theorem demo_scenarios :
  PyStr.splitlines Stub.demo_source = ["x = 1"; "y = 2"; "x = x + y"]
  /\ (process_command (H := Stub.runtime) "attach demo" Stub.alice
        Stub.server0).1 = RAttached "demo"
  /\ (process_command (H := Stub.runtime) "start" Stub.alice
        Stub.attached_demo).1
     = RFinished "demo" [("x", "3"); ("y", "2")]
  /\ (process_command (H := Stub.runtime) "add_breakpoint demo 2" Stub.alice
        Stub.server0).1 = RBreakpointSet "2" "demo"
  /\ (process_command (H := Stub.runtime) "start" Stub.alice
        Stub.breakpoint_at_2).1
     = RBreakpointAt 2 "y = 2"
  /\ (process_command (H := Stub.runtime) "continue" Stub.alice
        Stub.paused_at_2).1
     = RFinished "demo" [("x", "3"); ("y", "2")].
Proof. split_and!; vm_compute; reflexivity. Qed.

(** C1 as stated fails: with breakpoints registered at lines 1, 2 and
    10 of the three-line program [demo], the session pauses at line 2
    only and then finishes. *)
Lemma breakpoints_visited_counterexample :
  (process_command (H := Stub.runtime) "list_breakpoints demo" Stub.alice
     Stub.three_breakpoints).1 = RBreakpoints "demo" [1; 2; 10]%Z
  /\ (debug_session (H := Stub.runtime) 10 Stub.alice
        Stub.three_breakpoints).1
     = ([2%Z], RFinished "demo" [("x", "3"); ("y", "2")]).
Proof. split; vm_compute; reflexivity. Qed.

(** C8 as stated fails: after [alice] detaches from [demo], [bob], who
    debugs [other], still cannot attach to [demo]. *)
Lemma detach_then_attach_counterexample :
  (process_command (H := Stub.runtime) "detach" Stub.alice
     Stub.two_clients).1
  = RDetached "demo"
  /\ (process_command (H := Stub.runtime) "attach demo" Stub.bob
        (process_command (H := Stub.runtime) "detach" Stub.alice
           Stub.two_clients).2).1
     = RSessionBusy "other"
  /\ (process_command (H := Stub.runtime) "attach demo" Stub.bob
        (cleanup (H := Stub.runtime) Stub.alice Stub.two_clients)).1
     = RSessionBusy "other".
Proof. split_and!; vm_compute; reflexivity. Qed.


Lemma breakpoints_visited_in_order_witness :
  StronglySorted Z.lt
    (debug_session (H := Stub.runtime)
       (length (PyStr.splitlines Stub.demo_source)) Stub.alice
       Stub.breakpoint_at_2).1.1.
Proof.
  apply (breakpoints_visited_in_order (H := Stub.runtime) Stub.alice "demo"
           Stub.demo_source Stub.breakpoint_at_2).
  - split; [reflexivity | discriminate].
  - reflexivity.
Defined.

Lemma continue_needs_pause_witness :
  is_paused (H := Stub.runtime) "demo" Stub.paused_before_3
  /\ (process_command (H := Stub.runtime) "continue" Stub.alice
        Stub.paused_before_3).1
     = RBreakpointAt 3 "x = x + y"
  /\ states
       (process_command (H := Stub.runtime) "continue" Stub.alice
          Stub.paused_before_3).2 !! "demo"
     = Some (2, 1)
  /\ heap
       (process_command (H := Stub.runtime) "continue" Stub.alice
          Stub.paused_before_3).2 !! 1
     = Some [("x", 1%Z); ("y", 2%Z)]
  /\ is_paused (H := Stub.runtime) "demo"
       (process_command (H := Stub.runtime) "continue" Stub.alice
          Stub.paused_before_3).2.
Proof.
  assert (is_paused (H := Stub.runtime) "demo" Stub.paused_before_3)
    as Hpaused by (vm_compute; reflexivity).
  assert (attached (H := Stub.runtime) Stub.alice "demo"
            Stub.paused_before_3) as Ha
    by (split; [vm_compute; reflexivity | discriminate]).
  split; [exact Hpaused|].
  destruct (continue_needs_pause (H := Stub.runtime) "continue" ""
              Stub.alice "demo" Stub.paused_before_3) as [_ Hresumed];
    [vm_compute; reflexivity | exact Ha |].
  destruct (Hresumed Hpaused 1 1 Stub.demo_source) as (_ & _ & Hends);
    [vm_compute; reflexivity | vm_compute; reflexivity |].
  destruct (Hends [("x", 1%Z)]) as (_ & _ & _ & Hpause & _);
    [vm_compute; reflexivity|].
  destruct (Hpause 1 [("x", 1%Z)] "y = 2" [("x", 1%Z); ("y", 2%Z)])
    as (Hr & Hs & Hh & Hp & _);
    [apply advances_start | vm_compute; reflexivity ..|].
  split; [exact Hr|]. split; [exact Hs|]. split; [exact Hh | exact Hp].
Defined.

Lemma start_resets_witness :
  (process_command (H := Stub.runtime) "start" Stub.alice
     Stub.second_run).1
  = RFinished "demo" [("x", "3"); ("y", "2")].
Proof.
  apply (start_resets (H := Stub.runtime) "start" "" Stub.alice "demo"
           Stub.second_run Stub.demo_source).
  - reflexivity.
  - split; [reflexivity | discriminate].
  - reflexivity.
Defined.


Lemma detach_releases_witness :
  (process_command (H := Stub.runtime) "detach" Stub.alice
     Stub.attached_demo).1
  = RDetached "demo".
Proof.
  apply (detach_releases (H := Stub.runtime) Stub.catalog "detach" ""
           Stub.alice "demo" Stub.attached_demo).
  - apply reachable_after, reachable_server0.
  - split; [reflexivity | discriminate].
  - reflexivity.
Defined.

(** * The further properties on concrete servers *)

Lemma reachable_paused_at_2 : reachable Stub.catalog Stub.paused_at_2.
Proof. apply reachable_after, reachable_after, reachable_server0. Qed.

Lemma reachable_two_runs : reachable Stub.catalog Stub.two_runs.
Proof. do 5 apply reachable_after. apply reachable_server0. Qed.

Lemma paused_programs_are_attached_witness :
  exists a, attached (H := Stub.runtime) a "demo" Stub.paused_at_2.
Proof.
  apply (paused_programs_are_attached (H := Stub.runtime) Stub.catalog
           Stub.paused_at_2 reachable_paused_at_2).
  unfold is_paused. apply (bool_decide_unpack _). vm_compute. exact I.
Defined.

Lemma contexts_shared_not_mixed_witness :
  contexts (H := Stub.runtime) Stub.two_runs !! "demo" = Some 3.
Proof.
  apply (contexts_shared_not_mixed (H := Stub.runtime) Stub.catalog
           Stub.two_runs reachable_two_runs) with (idx := 1).
  reflexivity.
Defined.

Lemma cursor_within_program_witness :
  1 <= length (PyStr.splitlines Stub.demo_source).
Proof.
  apply (cursor_within_program (H := Stub.runtime) Stub.catalog
           Stub.paused_at_2 "demo" 1 1 Stub.demo_source
           reachable_paused_at_2); reflexivity.
Defined.

Lemma list_breakpoints_unknown_program_witness :
  process_command (H := Stub.runtime) "list_breakpoints nothing" Stub.bob
    Stub.paused_at_2
  = (RNotFound "nothing", Stub.paused_at_2).
Proof.
  apply (list_breakpoints_unknown_program (H := Stub.runtime) Stub.catalog
           Stub.paused_at_2 "list_breakpoints nothing" "nothing" Stub.bob
           reachable_paused_at_2); [reflexivity|].
  unfold known. simpl. discriminate.
Defined.

Lemma cont_guards_never_fire_witness :
  (process_command (H := Stub.runtime) "continue" Stub.alice
     Stub.paused_at_2).1 <> RStartFirst.
Proof.
  apply (cont_guards_never_fire (H := Stub.runtime) Stub.catalog
           Stub.paused_at_2 "continue" Stub.alice reachable_paused_at_2).
Defined.


Lemma detach_twice_witness :
  process_command (H := Stub.runtime) "detach" Stub.alice
    (process_command (H := Stub.runtime) "detach" Stub.alice
       Stub.paused_at_2).2
  = (RNotAttached,
     (process_command (H := Stub.runtime) "detach" Stub.alice
        Stub.paused_at_2).2).
Proof.
  apply (detach_twice (H := Stub.runtime) Stub.catalog "detach" ""
           Stub.alice Stub.paused_at_2 reachable_paused_at_2).
  reflexivity.
Defined.

Lemma inspection_changes_nothing_witness :
  (process_command (H := Stub.runtime) "get_var x" Stub.alice
     Stub.paused_at_2).2 = Stub.paused_at_2.
Proof.
  apply (inspection_changes_nothing (H := Stub.runtime) "get_var x"
           "get_var" "x" Stub.alice Stub.paused_at_2); [reflexivity|].
  do 3 apply list_elem_of_further. apply list_elem_of_here.
Defined.

Lemma attached_alice_paused :
  attached (H := Stub.runtime) Stub.alice "demo" Stub.paused_at_2.
Proof. split; [reflexivity | discriminate]. Qed.

Lemma attached_alice_breakpoint :
  attached (H := Stub.runtime) Stub.alice "demo" Stub.breakpoint_at_2.
Proof. split; [reflexivity | discriminate]. Qed.


Lemma set_var_reaches_resumed_run_witness :
  (process_command (H := Stub.runtime) "continue" Stub.alice
     (process_command (H := Stub.runtime) "set_var x 40" Stub.alice
        Stub.paused_at_2).2).1
  = RFinished "demo" [("x", "42"); ("y", "2")].
Proof.
  apply (set_var_reaches_resumed_run (H := Stub.runtime) Stub.catalog
           Stub.paused_at_2 Stub.alice "demo" "set_var x 40" "x 40" "x"
           "40" 40%Z "continue" "" 1 1 Stub.demo_source
           reachable_paused_at_2 attached_alice_paused);
    reflexivity.
Defined.

Lemma other_programs_untouched_witness :
  states (H := Stub.runtime)
    (process_command (H := Stub.runtime) "continue" Stub.alice
       Stub.two_runs).2 !! "other"
  = states (H := Stub.runtime) Stub.two_runs !! "other".
Proof.
  apply (other_programs_untouched (H := Stub.runtime) Stub.catalog
           Stub.two_runs "continue" "continue" "" Stub.alice "demo" "other"
           reachable_two_runs).
  - split; [reflexivity | discriminate].
  - reflexivity.
  - apply list_elem_of_further, list_elem_of_here.
  - discriminate.
Defined.

Lemma reattach_keeps_context_witness :
  context_of (H := Stub.runtime) "demo"
    (process_command (H := Stub.runtime) "attach demo" Stub.bob
       (process_command (H := Stub.runtime) "detach" Stub.alice
          Stub.paused_at_2).2).2
  = context_of (H := Stub.runtime) "demo" Stub.paused_at_2.
Proof.
  apply (reattach_keeps_context (H := Stub.runtime) Stub.catalog
           Stub.paused_at_2 Stub.alice Stub.bob "demo" "detach" ""
           "attach demo" reachable_paused_at_2 attached_alice_paused
           eq_refl eq_refl (or_intror eq_refl)).
Defined.

Lemma pause_blocks_edits_witness :
  (process_command (H := Stub.runtime) "rmv_breakpoint demo 2" Stub.bob
     (process_command (H := Stub.runtime) "start" Stub.alice
        Stub.breakpoint_at_2).2).1 = RBusy "demo".
Proof.
  apply (pause_blocks_edits (H := Stub.runtime) Stub.catalog
           Stub.breakpoint_at_2 "start" "start" "" Stub.alice "demo"
           (reachable_after _ _ _ _ reachable_server0)
           attached_alice_breakpoint eq_refl (or_introl eq_refl))
    with (ename := "rmv_breakpoint") (eargs := "demo 2") (line := "2")
         (n := 2%Z);
    try reflexivity; [by right|].
  exists 2%Z, "y = 2". reflexivity.
Defined.

Lemma breakpoint_answer_is_truthful_witness :
  (2 <= 2 <= Z.of_nat (length (PyStr.splitlines Stub.demo_source)) + 1)%Z.
Proof.
  apply (breakpoint_answer_is_truthful (H := Stub.runtime) Stub.catalog
           Stub.breakpoint_at_2 "start" "start" "" Stub.alice "demo"
           Stub.demo_source 2%Z "y = 2"
           (reachable_after _ _ _ _ reachable_server0)).
  - split; [reflexivity | discriminate].
  - reflexivity.
  - reflexivity.
  - by left.
  - reflexivity.
Defined.

Lemma breakpoint_edit_idempotent_witness :
  process_command (H := Stub.runtime) "add_breakpoint demo 3" Stub.bob
    (process_command (H := Stub.runtime) "add_breakpoint demo 3" Stub.alice
       Stub.breakpoint_at_2).2
  = process_command (H := Stub.runtime) "add_breakpoint demo 3" Stub.alice
      Stub.breakpoint_at_2.
Proof.
  apply (breakpoint_edit_idempotent (H := Stub.runtime)
           "add_breakpoint demo 3" "add_breakpoint" "demo 3");
    [reflexivity | by left].
Defined.

Lemma add_then_remove_breakpoint_witness :
  (process_command (H := Stub.runtime) "list_breakpoints demo" Stub.alice
     (process_command (H := Stub.runtime) "rmv_breakpoint demo 7" Stub.alice
        (process_command (H := Stub.runtime) "add_breakpoint demo 7"
           Stub.alice Stub.breakpoint_at_2).2).2).1
  = RBreakpoints "demo"
      (sorted (default ∅
         (breakpoints (H := Stub.runtime) Stub.breakpoint_at_2 !! "demo"))).
Proof.
  apply (add_then_remove_breakpoint (H := Stub.runtime)
           "add_breakpoint demo 7" "rmv_breakpoint demo 7"
           "list_breakpoints demo" "demo 7" Stub.alice Stub.breakpoint_at_2
           "demo" "7" 7%Z); try reflexivity.
  - unfold is_running, is_paused. simpl.
    intros [Hx | Hx]; exact (not_elem_of_empty _ Hx).
  - apply (bool_decide_unpack _). vm_compute. exact I.
Defined.

Lemma list_breakpoints_is_sorted_witness :
  exists lines,
    process_command (H := Stub.runtime) "list_breakpoints demo" Stub.bob
      Stub.three_breakpoints
    = (RBreakpoints "demo" lines, Stub.three_breakpoints)
    /\ StronglySorted Z.lt lines
    /\ forall x, x ∈ lines <-> x ∈ ({[1; 2; 10]} : gset Z)%Z.
Proof.
  apply (list_breakpoints_is_sorted (H := Stub.runtime)
           "list_breakpoints demo" "demo" Stub.bob Stub.three_breakpoints);
    [reflexivity|].
  unfold Stub.three_breakpoints. vm_compute. reflexivity.
Defined.

Lemma program_without_statements_witness :
  (process_command (H := Stub.runtime) "start" Stub.alice
     Stub.notes_server).1 = RFinished "notes" [].
Proof.
  apply (program_without_statements (H := Stub.runtime) "start" ""
           Stub.alice "notes" Stub.notes_server Stub.notes_source).
  - reflexivity.
  - split; [reflexivity | discriminate].
  - reflexivity.
  - repeat constructor.
Defined.

Lemma blank_message_ends_connection_witness :
  handle_client (H := Stub.runtime) ["attach demo"; "   "; "start"]
    Stub.alice Stub.server0
  = handle_client (H := Stub.runtime) ["attach demo"] Stub.alice
      Stub.server0.
Proof.
  apply (blank_message_ends_connection (H := Stub.runtime) ["attach demo"]
           "   " ["start"] Stub.alice Stub.server0).
  reflexivity.
Defined.

Lemma connection_end_releases_witness :
  session_of (H := Stub.runtime) Stub.alice
    (handle_client (H := Stub.runtime)
       ["add_breakpoint demo 2"; "attach demo"; "start"] Stub.alice
       Stub.server0).2 = None.
Proof.
  apply (connection_end_releases (H := Stub.runtime) Stub.catalog
           ["add_breakpoint demo 2"; "attach demo"; "start"] Stub.alice
           Stub.server0 reachable_server0).
Defined.
